(** * todo-back: the Todo service over a document store

    A shallow embedding of [src/services/TodoService.ts], of the schema in
    [src/models/Todo.ts], of the input types in [src/types/TodoTypes.ts], of
    the resolvers and of [src/middleware/ErrorHandler.ts], together with a
    model of the Mongoose collection the service talks to.

    Conventions.
    - An optional property ([x?: T]) is an [option T]; [None] is [undefined].
    - A JS number is a double.  A number that holds an integer is the [Z]
      it denotes; the result of an arithmetic operation is the double
      nearest to the exact result ([to_double], [Q_to_double]).
    - A JS string is a sequence of UTF-16 code units.  The model holds the
      strings whose code units are below 256, one [ascii] per code unit, so
      that [String.length] is the [length] of JS.
    - The string enums of TypeScript are inductive types with their runtime
      string ([TodoStatus_str], [TodoPriority_str]). *)

From Stdlib Require Import ZArith QArith Qround Qabs Ascii String List Lia Bool.
From stdpp Require Import gmap strings list fin_maps.

Local Open Scope string_scope.
Local Open Scope Z_scope.

(** ** src/models/Todo.ts *)

Inductive TodoPriority := LOW | MEDIUM | HIGH | URGENT.
Inductive TodoStatus := TODO | IN_PROGRESS | COMPLETED.

Definition TodoPriority_str (p : TodoPriority) : string :=
  match p with
  | LOW => "LOW" | MEDIUM => "MEDIUM" | HIGH => "HIGH" | URGENT => "URGENT"
  end.

Definition TodoStatus_str (s : TodoStatus) : string :=
  match s with
  | TODO => "TODO" | IN_PROGRESS => "IN_PROGRESS" | COMPLETED => "COMPLETED"
  end.

#[global] Instance TodoPriority_eq_dec : EqDecision TodoPriority.
Proof. solve_decision. Defined.
#[global] Instance TodoStatus_eq_dec : EqDecision TodoStatus.
Proof. solve_decision. Defined.

(** [ITodo]: a stored document.  The [_id] of a document is the key under
    which the collection holds it (see [Db]); [dueDate] is the time value of
    the stored [Date], in milliseconds. *)
Record ITodo := mkTodo {
  title : string;
  description : option string;
  status : TodoStatus;
  priority : TodoPriority;
  dueDate : option Z;
  tags : list string;
  completed : bool;
  createdAt : Z;
  updatedAt : Z
}.

(** ** src/types/TodoTypes.ts *)

(** [Date | string]: a [Date] object carries its time value ([None] for an
    Invalid Date); a string is kept as it was sent. *)
Inductive DateInput :=
| DateObj (t : option Z)
| DateStr (s : string).

Record TodoUpdateInput := mkUpdate {
  u_title : option string;
  u_description : option string;
  u_status : option TodoStatus;
  u_priority : option TodoPriority;
  u_dueDate : option DateInput;
  u_tags : option (list string);
  u_completed : option bool
}.

Record TodoFilters := mkFilters {
  f_status : option TodoStatus;
  f_completed : option bool;
  f_priority : option TodoPriority;
  f_tags : option (list string);
  f_search : option string;
  f_dueDateBefore : option DateInput;
  f_dueDateAfter : option DateInput
}.

Record PaginationInput := mkPagination {
  p_page : option Z;
  p_limit : option Z;
  p_sortBy : option string;
  p_sortOrder : option string
}.

(** ** JavaScript values as the service tests them *)

(** Truthiness of a string: every string but the empty one. *)
Definition truthy_str (s : string) : bool :=
  match s with EmptyString => false | String _ _ => true end.

(** Truthiness of [Date | string]: an object is always truthy. *)
Definition truthy_date (d : DateInput) : bool :=
  match d with DateObj _ => true | DateStr s => truthy_str s end.

(** [x || d] on an optional number: [undefined] and [0] give [d]. *)
Definition num_or (x : option Z) (d : Z) : Z :=
  match x with
  | Some v => if v =? 0 then d else v
  | None => d
  end.

(** [x || d] on an optional string. *)
Definition str_or (x : option string) (d : string) : string :=
  match x with
  | Some v => if truthy_str v then v else d
  | None => d
  end.

(** What a [throw] carries: an [Error] object with its [name] and [message],
    or any other value. *)
Inductive Thrown :=
| ErrorObj (name message : string)
| NonError.

(** [new Error(msg)] *)
Definition new_Error (msg : string) : Thrown := ErrorObj "Error" msg.

(** [error instanceof Error ? error.message : "Unknown error"] *)
Definition message_of (e : Thrown) : string :=
  match e with
  | ErrorObj _ m => m
  | NonError => "Unknown error"
  end.

Inductive Outcome (A : Type) :=
| Return (a : A)
| Throw (e : Thrown).
Arguments Return {A} a.
Arguments Throw {A} e.

(** ** Query objects

    [const query: any = {}] is a JS object: a finite map from property names
    to what the service stores under them.  A [Date] built by [new Date(x)]
    is kept with the argument it was built from; the store reads its time
    value when it evaluates the query ([time_of] below). *)

Inductive JsValue :=
| VBool (b : bool)
| VStr (s : string)
| VDate (d : DateInput)
| VList (l : list string).

Inductive JsDate :=
| new_Date (x : DateInput).

Inductive Cond :=
| Eq (v : JsValue)                       (* field: v *)
| In_ (vs : list string)                 (* field: { $in: vs } *)
| Regex (pattern options : string)       (* field: { $regex, $options } *)
| Range (bounds : gmap string JsDate).   (* field: { $lte: .., $gte: .. } *)

Inductive Clause :=
| Field (c : Cond)
| Or (alts : list (string * Cond)).      (* $or: [ { field: cond }, ... ] *)

Abbreviation Query := (gmap string Clause).

#[global] Instance DateInput_eq_dec : EqDecision DateInput.
Proof. solve_decision. Defined.
#[global] Instance JsValue_eq_dec : EqDecision JsValue.
Proof. solve_decision. Defined.

(** [{ ...query.dueDate }]: the own properties of what [query.dueDate]
    holds, none when it is [undefined]. *)
Definition spread (c : option Clause) : gmap string JsDate :=
  match c with
  | Some (Field (Range bounds)) => bounds
  | _ => ∅
  end.

(** ** TodoService.getTodos, lines 49-83: the query built from the filters

    The fields of [TodoFilters] are optional, not nullable: [None] is
    [undefined], and the types leave [null] out. *)

Definition buildQuery (filters : option TodoFilters) : Query :=
  let query : Query := ∅ in
  match filters with
  | None => query
  | Some filters =>
    let query :=
      match f_status filters with
      | Some s => <["status" := Field (Eq (VStr (TodoStatus_str s)))]> query
      | None => query
      end in
    let query :=
      match f_completed filters with
      | Some b => <["completed" := Field (Eq (VBool b))]> query
      | None => query
      end in
    let query :=
      match f_priority filters with
      | Some p =>
          if truthy_str (TodoPriority_str p)
          then <["priority" := Field (Eq (VStr (TodoPriority_str p)))]> query
          else query
      | None => query
      end in
    let query :=
      match f_tags filters with
      | Some ts =>
          if (0 <? Z.of_nat (length ts))
          then <["tags" := Field (In_ ts)]> query
          else query
      | None => query
      end in
    let query :=
      match f_search filters with
      | Some s =>
          if truthy_str s
          then <["$or" := Or [("title", Regex s "i");
                              ("description", Regex s "i")]]> query
          else query
      | None => query
      end in
    let query :=
      match f_dueDateBefore filters with
      | Some d =>
          if truthy_date d
          then <["dueDate" :=
                   Field (Range (<["$lte" := new_Date d]>
                                   (spread (query !! "dueDate"))))]> query
          else query
      | None => query
      end in
    let query :=
      match f_dueDateAfter filters with
      | Some d =>
          if truthy_date d
          then <["dueDate" :=
                   Field (Range (<["$gte" := new_Date d]>
                                   (spread (query !! "dueDate"))))]> query
          else query
      | None => query
      end in
    query
  end.

(** ** JavaScript numbers

    A number is NaN, an infinity, or a finite double, held as the rational
    it denotes. *)
Inductive JsNumber :=
| NaN
| Infinity
| NegInfinity
| Finite (q : Q).

(** The number that holds the integer [z]. *)
Definition Int (z : Z) : JsNumber := Finite (inject_Z z).

(** The multiple of [2^e] nearest to [a], a tie going to the even multiple
    (for [1 ≤ e]). *)
Definition nearest_even (a e : Z) : Z :=
  let q := a / 2 ^ e in
  let r := a mod 2 ^ e in
  let half := 2 ^ (e - 1) in
  if r <? half then q * 2 ^ e
  else if half <? r then (q + 1) * 2 ^ e
  else if Z.even q then q * 2 ^ e else (q + 1) * 2 ^ e.

(** An integer rounded to the 53 bits of the significand of a double. *)
Definition round53 (z : Z) : Z :=
  let e := Z.log2 (Z.abs z) - 52 in
  if e <=? 0 then z else Z.sgn z * nearest_even (Z.abs z) e.

(** The double an operation gives when its exact result is the integer [z]:
    the nearest double, an infinity beyond the largest one. *)
Definition to_double (z : Z) : JsNumber :=
  let r := round53 z in
  if 2 ^ 1024 <=? r then Infinity
  else if r <=? - 2 ^ 1024 then NegInfinity
  else Int r.

(** ** TodoService.getTodos, lines 86-90: pagination

    [page] and [limit] are doubles that hold integers; [page - 1] is
    rounded, then the product is. *)

Record Pagination := mkPage {
  page : Z;
  limit : Z;
  skip : JsNumber;
  sortBy : string;
  sortOrder : Z
}.

Definition paginate (pagination : option PaginationInput) : Pagination :=
  let page := num_or (pagination ≫= p_page) 1 in
  let limit := num_or (pagination ≫= p_limit) 10 in
  let skip := to_double (round53 (page - 1) * limit) in
  let sortBy := str_or (pagination ≫= p_sortBy) "createdAt" in
  let sortOrder :=
    if bool_decide (pagination ≫= p_sortOrder = Some "asc") then 1 else -1 in
  mkPage page limit skip sortBy sortOrder.

(** The request [getTodos] sends to the collection:
    [Todo.find(query).sort({ [sortBy]: sortOrder }).skip(skip).limit(limit)]
    and [Todo.countDocuments(query)]. *)
Record FindRequest := mkFind {
  fr_query : Query;
  fr_sort : string * Z;
  fr_skip : JsNumber;
  fr_limit : Z
}.

Definition getTodos_request (filters : option TodoFilters)
    (pagination : option PaginationInput) : FindRequest :=
  let query := buildQuery filters in
  let pg := paginate pagination in
  mkFind query (sortBy pg, sortOrder pg) (skip pg) (limit pg).

Definition noFilters : TodoFilters :=
  mkFilters None None None None None None None.

(** ** Regular expressions of the store

    [$regex] hands the search string to the store's regular-expression
    engine (PCRE).  The model covers the patterns made of
    - ordinary characters, which stand for themselves,
    - the dot, which stands for any character but the line feed,
    - a backslash followed by a character that is neither a letter nor a
      digit, which stands for that character,
    with the option [i] (letters match without regard to case) or without
    options.  [regex_compile] answers [None] on every other pattern: the
    model says nothing about it. *)

Definition chars (s : string) : list ascii := list_ascii_of_string s.

Definition in_range (lo hi : nat) (c : ascii) : bool :=
  let n := nat_of_ascii c in ((lo <=? n) && (n <=? hi))%nat.

Definition is_alnum (c : ascii) : bool :=
  in_range 48 57 c || in_range 65 90 c || in_range 97 122 c.

Definition is_meta (c : ascii) : bool :=
  bool_decide (c ∈ chars "\^$.|?*+()[]{}").

(** Case folding of the letters A-Z. *)
Definition fold_case (c : ascii) : ascii :=
  if in_range 65 90 c then ascii_of_nat (nat_of_ascii c + 32) else c.

Inductive Atom :=
| Lit (c : ascii)
| AnyChar.

Fixpoint regex_parse (p : list ascii) : option (list Atom) :=
  match p with
  | [] => Some []
  | c :: rest =>
      if bool_decide (c = "\"%char) then
        match rest with
        | e :: rest' =>
            if is_alnum e then None else cons (Lit e) <$> regex_parse rest'
        | [] => None
        end
      else if bool_decide (c = "."%char) then cons AnyChar <$> regex_parse rest
      else if is_meta c then None
      else cons (Lit c) <$> regex_parse rest
  end.

Record RegExp := mkRegExp {
  atoms : list Atom;
  caseless : bool
}.

Definition regex_compile (pattern options : string) : option RegExp :=
  r ← regex_parse (chars pattern);
  if bool_decide (options = "i") then Some (mkRegExp r true)
  else if bool_decide (options = EmptyString) then Some (mkRegExp r false)
  else None.

Definition atom_matches (ci : bool) (a : Atom) (c : ascii) : bool :=
  match a with
  | Lit x =>
      if ci then bool_decide (fold_case x = fold_case c)
      else bool_decide (x = c)
  | AnyChar => negb (bool_decide (c = "010"%char))
  end.

(** The atoms match a prefix of the subject. *)
Fixpoint match_here (ci : bool) (r : list Atom) (s : list ascii) : bool :=
  match r, s with
  | [], _ => true
  | a :: r', c :: s' => atom_matches ci a c && match_here ci r' s'
  | _ :: _, [] => false
  end.

(** The atoms match somewhere in the subject (no anchor). *)
Fixpoint match_anywhere (ci : bool) (r : list Atom) (s : list ascii) : bool :=
  match_here ci r s ||
  match s with
  | [] => false
  | _ :: s' => match_anywhere ci r s'
  end.

Definition regex_test (re : RegExp) (subject : string) : bool :=
  match_anywhere (caseless re) (atoms re) (chars subject).


(** ** The collection behind [mongoose.model<ITodo>("Todo", TodoSchema)]

    The store is an external collaborator; what follows is a model of the
    calls the service makes on it.  Wherever the model rejects a request
    (an id that is not 24 hexadecimal digits, a value the schema validators
    refuse, a date that is not valid, a query outside the modelled
    operators, an outage), the request fails with an [Error].  The results
    on the filters, on pagination and on the mutations rest on no rejection;
    the results on errors name the rejection they are about (a title the
    validators refuse, a connection that is down). *)

#[global] Instance Outcome_ret : MRet Outcome := λ A a, Return a.
#[global] Instance Outcome_bind : MBind Outcome := λ A B f m,
  match m with
  | Return a => f a
  | Throw e => Throw e
  end.

Definition ValidationError (msg : string) : Thrown :=
  ErrorObj "ValidationError" msg.
Definition CastError (path : string) : Thrown :=
  ErrorObj "CastError" ("Cast failed for path " ++ path).

(** [trim: true] is [String.prototype.trim]: the white space and the line
    terminators of ECMAScript removed at both ends.  Below 256 these are
    the code units 9 to 13, 32 and 160 (the no-break space). *)
Definition is_space (c : ascii) : bool :=
  bool_decide (nat_of_ascii c ∈ [9; 10; 11; 12; 13; 32; 160]%nat).

Fixpoint trim_start (s : list ascii) : list ascii :=
  match s with
  | c :: s' => if is_space c then trim_start s' else s
  | [] => []
  end.

Definition trim (s : string) : string :=
  string_of_list_ascii (rev (trim_start (rev (trim_start (chars s))))).

(** [Object.values(TodoStatus)], [Object.values(TodoPriority)] *)
Definition TodoStatus_values : list TodoStatus := [TODO; IN_PROGRESS; COMPLETED].
Definition TodoPriority_values : list TodoPriority := [LOW; MEDIUM; HIGH; URGENT].

Definition status_of_str (s : string) : option TodoStatus :=
  List.find (λ v, bool_decide (TodoStatus_str v = s)) TodoStatus_values.
Definition priority_of_str (s : string) : option TodoPriority :=
  List.find (λ v, bool_decide (TodoPriority_str v = s)) TodoPriority_values.

(** The schema paths: cast, setters, then validators ([runValidators]). *)
Definition path_title (v : JsValue) : Outcome string :=
  match v with
  | VStr s =>
      let s := trim s in
      if negb (truthy_str s) then Throw (ValidationError "Title is required")
      else if (200 <? String.length s)%nat
      then Throw (ValidationError "Title cannot exceed 200 characters")
      else Return s
  | _ => Throw (CastError "title")
  end.

Definition path_description (v : JsValue) : Outcome string :=
  match v with
  | VStr s =>
      let s := trim s in
      if (1000 <? String.length s)%nat
      then Throw (ValidationError "Description cannot exceed 1000 characters")
      else Return s
  | _ => Throw (CastError "description")
  end.

Definition path_status (v : JsValue) : Outcome TodoStatus :=
  match v with
  | VStr s =>
      match status_of_str s with
      | Some st => Return st
      | None => Throw (ValidationError "status is not a valid enum value")
      end
  | _ => Throw (CastError "status")
  end.

Definition path_priority (v : JsValue) : Outcome TodoPriority :=
  match v with
  | VStr s =>
      match priority_of_str s with
      | Some p => Return p
      | None => Throw (ValidationError "priority is not a valid enum value")
      end
  | _ => Throw (CastError "priority")
  end.

Definition path_tags (v : JsValue) : Outcome (list string) :=
  match v with
  | VList l => Return l
  | _ => Throw (CastError "tags")
  end.

Definition path_completed (v : JsValue) : Outcome bool :=
  match v with
  | VBool b => Return b
  | _ => Throw (CastError "completed")
  end.

(** A path of [$set] that is absent is not cast. *)
Definition on_path {A} (f : JsValue → Outcome A) (o : option JsValue)
    : Outcome (option A) :=
  match o with
  | None => Return None
  | Some v => a ← f v; Return (Some a)
  end.

(** [_id]: an ObjectId is twelve bytes.  A string of 24 hexadecimal digits,
    in either case, is cast to the ObjectId whose bytes it spells;
    [toHexString] writes an ObjectId with the digits in lower case, and the
    model holds an ObjectId as that string. *)
Definition is_hex (c : ascii) : bool :=
  in_range 48 57 c || in_range 65 70 c || in_range 97 102 c.

Definition isObjectId (id : string) : bool :=
  bool_decide (String.length id = 24%nat) && forallb is_hex (chars id).

Definition ObjectId_of (id : string) : string :=
  string_of_list_ascii (fold_case <$> chars id).

(** The collection: its documents by [_id] (an ObjectId, in the lower-case
    digits of [toHexString]), whether the connection is down (with the
    message the driver then gives), and the time its clock shows. *)
Record Db := mkDb {
  docs : gmap string ITodo;
  outage : option string;
  now : Z
}.

Definition with_docs (m : gmap string ITodo) (db : Db) : Db :=
  mkDb m (outage db) (now db).

(** An [async] computation against the collection. *)
Definition Async (A : Type) : Type := Db → Outcome A * Db.

Definition ret {A} (a : A) : Async A := λ db, (Return a, db).
Definition throw {A} (e : Thrown) : Async A := λ db, (Throw e, db).
Definition bind {A B} (m : Async A) (k : A → Async B) : Async B :=
  λ db, match m db with
        | (Return a, db') => k a db'
        | (Throw e, db') => (Throw e, db')
        end.
(** [try { body } catch (error) { handler }] *)
Definition try_catch {A} (body : Async A) (handler : Thrown → Async A)
    : Async A :=
  λ db, match body db with
        | (Return a, db') => (Return a, db')
        | (Throw e, db') => handler e db'
        end.
Definition lift {A} (o : Outcome A) : Async A := λ db, (o, db).
Definition get_db : Async Db := λ db, (Return db, db).
Definition put_docs (m : gmap string ITodo) : Async unit :=
  λ db, (Return tt, with_docs m db).

Notation "'await' x ':=' m 'in' k" := (bind m (λ x, k))
  (at level 10, x name, m at level 100, k at level 200,
   format "'[v' 'await'  x  ':='  m  'in' '/' k ']'").

(** Every call goes through the connection. *)
Definition connection : Async unit :=
  λ db, match outage db with
        | Some msg => (Throw (ErrorObj "MongooseError" msg), db)
        | None => (Return tt, db)
        end.

Definition cast_id (id : string) : Async string :=
  if isObjectId id then ret (ObjectId_of id) else throw (CastError "_id").

(** The value of a scalar path of a document, as the query language sees it. *)
Definition field_value (path : string) (d : ITodo) : option JsValue :=
  if bool_decide (path = "status") then Some (VStr (TodoStatus_str (status d)))
  else if bool_decide (path = "priority")
  then Some (VStr (TodoPriority_str (priority d)))
  else if bool_decide (path = "completed") then Some (VBool (completed d))
  else if bool_decide (path = "title") then Some (VStr (title d))
  else if bool_decide (path = "description") then VStr <$> description d
  else None.

Definition scalar_paths : list string :=
  ["status"; "priority"; "completed"; "title"; "description"].

Definition text_field (path : string) (d : ITodo) : option string :=
  if bool_decide (path = "title") then Some (title d)
  else if bool_decide (path = "description") then description d
  else None.

(** ** [Number(s)] on a string: StringToNumber of ECMAScript

    White space is trimmed; the empty string is 0; a decimal literal may
    have a sign, a fraction and an exponent; [Infinity] may have a sign; a
    literal in base 16, 8 or 2 ([0x], [0o], [0b]) has none; every other
    string is NaN.  The value is rounded to the nearest double. *)

(** The value of a digit: [a]-[z] and [A]-[Z] count from 10. *)
Definition digit_value (c : ascii) : Z :=
  let n := Z.of_nat (nat_of_ascii c) in
  if in_range 48 57 c then n - 48
  else if in_range 97 122 c then n - 87
  else if in_range 65 90 c then n - 55
  else 36.

Definition is_digit (base : Z) (c : ascii) : bool := digit_value c <? base.

Definition digits_value (base : Z) (ds : list ascii) : Z :=
  foldl (λ acc c, base * acc + digit_value c) 0 ds.

(** One digit or more, and nothing else. *)
Definition all_digits (base : Z) (ds : list ascii) : bool :=
  negb (bool_decide (ds = [])) && forallb (is_digit base) ds.

(** The decimal digits at the head of a string, and what follows them. *)
Fixpoint span_digits (cs : list ascii) : list ascii * list ascii :=
  match cs with
  | c :: cs' =>
      if is_digit 10 c
      then let '(ds, rest) := span_digits cs' in (c :: ds, rest)
      else ([], cs)
  | [] => ([], [])
  end.

(** floor(log2 q), for [0 < q]. *)
Definition Q_log2 (q : Q) : Z :=
  let e := Z.log2 (Qnum q) - Z.log2 (Z.pos (Qden q)) in
  if Qle_bool (Qpower (2 # 1) e) q then e else e - 1.

(** The integer nearest to [q], a tie going to the even one. *)
Definition Q_nearest_even (q : Q) : Z :=
  let f := Qfloor q in
  match Qcompare (Qminus q (inject_Z f)) (1 # 2) with
  | Lt => f
  | Gt => f + 1
  | Datatypes.Eq => if Z.even f then f else f + 1
  end.

(** The double nearest to a rational: 53 significant bits, no exponent
    below -1074, an infinity beyond the largest double. *)
Definition Q_to_double (q : Q) : JsNumber :=
  let a := Qabs q in
  if Qeq_bool a (0 # 1) then Int 0
  else
    let e := Z.max (Q_log2 a - 52) (-1074) in
    let r :=
      Qmult (inject_Z (Q_nearest_even (Qdiv a (Qpower (2 # 1) e))))
        (Qpower (2 # 1) e) in
    if Qle_bool (Qpower (2 # 1) 1024) r
    then (if Qle_bool (0 # 1) q then Infinity else NegInfinity)
    else Finite (Qred (if Qle_bool (0 # 1) q then r else Qopp r)).

Definition js_neg (n : JsNumber) : JsNumber :=
  match n with
  | NaN => NaN
  | Infinity => NegInfinity
  | NegInfinity => Infinity
  | Finite q => Finite (Qred (Qopp q))
  end.

(** ExponentPart, when there is one: [e] or [E], a sign or none, digits. *)
Definition ExponentPart (cs : list ascii) : option Z :=
  match cs with
  | [] => Some 0
  | c :: cs' =>
      if bool_decide (c = "e"%char) || bool_decide (c = "E"%char) then
        let '(sign, ds) :=
          match cs' with
          | s :: ds =>
              if bool_decide (s = "+"%char) then (1, ds)
              else if bool_decide (s = "-"%char) then (-1, ds)
              else (1, cs')
          | [] => (1, cs')
          end in
        if all_digits 10 ds then Some (sign * digits_value 10 ds) else None
      else None
  end.

Definition StrUnsignedDecimalLiteral (cs : list ascii) : option JsNumber :=
  if bool_decide (cs = chars "Infinity") then Some Infinity
  else
    let '(int, rest) := span_digits cs in
    let '(frac, rest) :=
      match rest with
      | c :: rest' =>
          if bool_decide (c = "."%char) then span_digits rest' else ([], rest)
      | [] => ([], rest)
      end in
    if bool_decide (int = []) && bool_decide (frac = []) then None
    else
      e ← ExponentPart rest;
      Some (Q_to_double
              (Qmult (inject_Z (digits_value 10 (int ++ frac)))
                 (Qpower (10 # 1) (e - Z.of_nat (length frac))))).

Definition StrDecimalLiteral (cs : list ascii) : option JsNumber :=
  match cs with
  | c :: cs' =>
      if bool_decide (c = "+"%char) then StrUnsignedDecimalLiteral cs'
      else if bool_decide (c = "-"%char)
      then js_neg <$> StrUnsignedDecimalLiteral cs'
      else StrUnsignedDecimalLiteral cs
  | [] => None
  end.

Definition NonDecimalIntegerLiteral (cs : list ascii) : option JsNumber :=
  match cs with
  | z :: x :: ds =>
      if bool_decide (z = "0"%char) then
        base ← (if bool_decide (x ∈ chars "xX") then Some 16
                else if bool_decide (x ∈ chars "oO") then Some 8
                else if bool_decide (x ∈ chars "bB") then Some 2
                else None);
        if all_digits base ds then Some (to_double (digits_value base ds))
        else None
      else None
  | _ => None
  end.

Definition StringToNumber (s : string) : JsNumber :=
  let cs := chars (trim s) in
  if bool_decide (cs = []) then Int 0
  else
    match StrDecimalLiteral cs with
    | Some n => n
    | None => default NaN (NonDecimalIntegerLiteral cs)
    end.

Definition isNaN (n : JsNumber) : bool :=
  match n with NaN => true | _ => false end.

(** [n >= z] and [n < z] for an integer [z]. *)
Definition js_ge (n : JsNumber) (z : Z) : bool :=
  match n with
  | Finite q => Qle_bool (inject_Z z) q
  | Infinity => true
  | _ => false
  end.

Definition js_lt (n : JsNumber) (z : Z) : bool :=
  match n with
  | Finite q => negb (Qle_bool (inject_Z z) q)
  | NegInfinity => true
  | _ => false
  end.

(** The time value of [new Date(n)] for a number [n] (TimeClip): the
    integer part of [n] when [n] is finite and within 8.64e15 milliseconds
    of the epoch, none (an Invalid Date) otherwise. *)
Definition new_Date_number (n : JsNumber) : option Z :=
  match n with
  | Finite q =>
      if Qle_bool (Qabs q) (inject_Z 8640000000000000)
      then Some (if Qle_bool (0 # 1) q then Qfloor q else Qceiling q)
      else None
  | _ => None
  end.

Section Collection.

(** [Date.parse]: the time value the JS engine reads in a string, [None]
    when it reads none (the [Date] is then an Invalid Date).  ECMAScript
    leaves the formats it accepts beyond ISO 8601 to the engine. *)
Variable Date_parse : string → option Z.

Definition time_of (d : JsDate) : option Z :=
  match d with
  | new_Date (DateObj t) => t
  | new_Date (DateStr s) => Date_parse s
  end.

(** The cast of a [Date] path (mongoose, [castDate]): the empty string is
    [null]; a [Date] is kept when it is valid; a string that [Number] reads
    as a number at or above 275761, or below -271820, is a number of
    milliseconds; every other string goes to [new Date(value)].  A date
    that is not valid fails the cast. *)
Definition castDate (value : DateInput) : Outcome (option Z) :=
  match value with
  | DateObj t =>
      match t with
      | Some t => Return (Some t)
      | None => Throw (CastError "dueDate")
      end
  | DateStr s =>
      if negb (truthy_str s) then Return None
      else
        let date :=
          if negb (isNaN (StringToNumber s))
             && (js_ge (StringToNumber s) 275761
                 || js_lt (StringToNumber s) (-271820))
          then new_Date_number (StringToNumber s)
          else time_of (new_Date value) in
        match date with
        | Some t => Return (Some t)
        | None => Throw (CastError "dueDate")
        end
  end.

Definition path_dueDate (v : JsValue) : Outcome (option Z) :=
  match v with
  | VDate d => castDate d
  | _ => Throw (CastError "dueDate")
  end.

(** *** Queries *)

Definition cast_bound (cmp : Z → Z → bool) (o : option JsDate)
    : option (Z → bool) :=
  match o with
  | None => Some (λ _, true)
  | Some d => b ← time_of d; Some (λ t, cmp t b)
  end.

Definition cast_range (bounds : gmap string JsDate) : option (Z → bool) :=
  if bool_decide (dom bounds ⊆ ({[ "$lte"; "$gte" ]} : gset string)) then
    lte ← cast_bound Z.leb (bounds !! "$lte");
    gte ← cast_bound Z.geb (bounds !! "$gte");
    Some (λ t, lte t && gte t)
  else None.

Definition cast_cond (path : string) (c : Cond) : option (ITodo → bool) :=
  match c with
  | Eq v =>
      if bool_decide (path ∈ scalar_paths)
      then Some (λ d, bool_decide (field_value path d = Some v))
      else None
  | In_ vs =>
      if bool_decide (path = "tags")
      then Some (λ d, existsb (λ t, bool_decide (t ∈ vs)) (tags d))
      else None
  | Regex pattern options =>
      if bool_decide (path ∈ ["title"; "description"]) then
        re ← regex_compile pattern options;
        Some (λ d, match text_field path d with
                   | Some s => regex_test re s
                   | None => false
                   end)
      else None
  | Range bounds =>
      if bool_decide (path = "dueDate") then
        within ← cast_range bounds;
        Some (λ d, match dueDate d with
                   | Some t => within t
                   | None => false
                   end)
      else None
  end.

Definition cast_clause (key : string) (c : Clause) : option (ITodo → bool) :=
  match c with
  | Field cond => cast_cond key cond
  | Or alts =>
      if bool_decide (key = "$or") && negb (bool_decide (alts = [])) then
        ps ← mapM (λ pc : string * Cond, cast_cond pc.1 pc.2) alts;
        Some (λ d, existsb (λ p : ITodo → bool, p d) ps)
      else None
  end.

(** The predicate a query stands for: the conjunction of its clauses;
    [None] when the store rejects the query. *)
Definition cast_query (q : Query) : option (ITodo → bool) :=
  ps ← mapM (λ kc : string * Clause, cast_clause kc.1 kc.2) (map_to_list q);
  Some (λ d, forallb (λ p : ITodo → bool, p d) ps).

Definition matches (q : Query) (d : ITodo) : option bool :=
  p ← cast_query q; Some (p d).

(** *** Updates: [{ $set: set }] with [{ new: true, runValidators: true }] *)

Definition cast_update (set : gmap string JsValue) : Outcome (ITodo → ITodo) :=
  t ← on_path path_title (set !! "title");
  de ← on_path path_description (set !! "description");
  st ← on_path path_status (set !! "status");
  pr ← on_path path_priority (set !! "priority");
  du ← on_path path_dueDate (set !! "dueDate");
  tg ← on_path path_tags (set !! "tags");
  co ← on_path path_completed (set !! "completed");
  Return (λ d,
    {| title := default (title d) t;
       description := match de with Some x => Some x | None => description d end;
       status := default (status d) st;
       priority := default (priority d) pr;
       dueDate := default (dueDate d) du;
       tags := default (tags d) tg;
       completed := default (completed d) co;
       createdAt := createdAt d;
       updatedAt := updatedAt d |}).

(** [timestamps: true]: a write stamps [updatedAt]. *)
Definition touch (t : Z) (d : ITodo) : ITodo :=
  {| title := title d; description := description d; status := status d;
     priority := priority d; dueDate := dueDate d; tags := tags d;
     completed := completed d; createdAt := createdAt d; updatedAt := t |}.

(** *** The calls of the service *)

Definition Todo_findById (id : string) : Async (option ITodo) :=
  await _ := connection in
  await _id := cast_id id in
  await db := get_db in
  ret (docs db !! _id).

Definition Todo_findByIdAndUpdate (id : string) (set : gmap string JsValue)
    : Async (option ITodo) :=
  await _ := connection in
  await _id := cast_id id in
  await change := lift (cast_update set) in
  await db := get_db in
  match docs db !! _id with
  | None => ret None
  | Some d =>
      let d' := touch (now db) (change d) in
      await _ := put_docs (<[_id := d']> (docs db)) in
      ret (Some d')
  end.

Definition Todo_findByIdAndDelete (id : string) : Async (option ITodo) :=
  await _ := connection in
  await _id := cast_id id in
  await db := get_db in
  match docs db !! _id with
  | None => ret None
  | Some d =>
      await _ := put_docs (delete _id (docs db)) in
      ret (Some d)
  end.

(** [todo.save()] on a document whose [_id] is [_id], after the service has
    assigned [completed] and [status] (values the validators accept). *)
Definition save (_id : string) (todo : ITodo) : Async ITodo :=
  await _ := connection in
  await db := get_db in
  let todo := touch (now db) todo in
  await _ := put_docs (<[_id := todo]> (docs db)) in
  ret todo.

Definition query_rejected : Thrown :=
  ErrorObj "MongoServerError" "the query was rejected".

Definition selected (p : ITodo → bool) (m : gmap string ITodo)
    : gmap string ITodo :=
  filter (λ kv : string * ITodo, p kv.2 = true) m.

Definition Todo_countDocuments (q : Query) : Async nat :=
  await _ := connection in
  match cast_query q with
  | None => throw query_rejected
  | Some p =>
      await db := get_db in
      ret (size (selected p (docs db)))
  end.

Record DeleteResult := mkDeleteResult { deletedCount : nat }.

Definition Todo_deleteMany (q : Query) : Async DeleteResult :=
  await _ := connection in
  match cast_query q with
  | None => throw query_rejected
  | Some p =>
      await db := get_db in
      await _ := put_docs (selected (λ d, negb (p d)) (docs db)) in
      ret (mkDeleteResult (size (selected p (docs db))))
  end.

(** [Todo.aggregate([{ $group: { _id: path, count: { $sum: 1 } } }])]:
    one entry per value the path takes in the collection. *)
Record GroupCount := mkGroup { _id : string; count : nat }.

Definition group_key (path : string) : option (ITodo → string) :=
  if bool_decide (path = "$priority")
  then Some (λ d, TodoPriority_str (priority d))
  else if bool_decide (path = "$status")
  then Some (λ d, TodoStatus_str (status d))
  else None.

Definition tally (key : ITodo → string) (m : gmap string ITodo)
    : gmap string nat :=
  map_fold (λ _ d acc, <[key d := S (default 0%nat (acc !! key d))]> acc) ∅ m.

Definition Todo_aggregate_group (path : string) : Async (list GroupCount) :=
  await _ := connection in
  match group_key path with
  | None => throw query_rejected
  | Some key =>
      await db := get_db in
      ret ((λ kv : string * nat, mkGroup kv.1 kv.2)
             <$> map_to_list (tally key (docs db)))
  end.

(** ** src/services/TodoService.ts *)

(** [catch (error) { throw new Error(`${what}: ${...}`) }] *)
Definition rethrow {A} (what : string) (error : Thrown) : Async A :=
  throw (new_Error (what ++ ": " ++ message_of error)).

Definition getTodoById (id : string) : Async (option ITodo) :=
  try_catch
    (await todo := Todo_findById id in
     ret todo)
    (rethrow "Failed to fetch todo").

(** Lines 131-146: the object handed to [$set]. *)
Definition updateData (input : TodoUpdateInput) : gmap string JsValue :=
  let updateData : gmap string JsValue := ∅ in
  let updateData :=
    match u_title input with
    | Some v => <["title" := VStr v]> updateData
    | None => updateData
    end in
  let updateData :=
    match u_description input with
    | Some v => <["description" := VStr v]> updateData
    | None => updateData
    end in
  let updateData :=
    match u_status input with
    | Some v => <["status" := VStr (TodoStatus_str v)]> updateData
    | None => updateData
    end in
  let updateData :=
    match u_priority input with
    | Some v => <["priority" := VStr (TodoPriority_str v)]> updateData
    | None => updateData
    end in
  let updateData :=
    match u_dueDate input with
    | Some v => <["dueDate" := VDate v]> updateData
    | None => updateData
    end in
  let updateData :=
    match u_tags input with
    | Some v => <["tags" := VList v]> updateData
    | None => updateData
    end in
  let updateData :=
    match u_completed input with
    | Some c =>
        let updateData := <["completed" := VBool c]> updateData in
        (* If marking as completed, update status *)
        if c
        then <["status" := VStr (TodoStatus_str COMPLETED)]> updateData
        else updateData
    | None => updateData
    end in
  updateData.

Definition updateTodo (id : string) (input : TodoUpdateInput)
    : Async (option ITodo) :=
  try_catch
    (await todo := Todo_findByIdAndUpdate id (updateData input) in
     ret todo)
    (rethrow "Failed to update todo").

Definition deleteTodo (id : string) : Async bool :=
  try_catch
    (await result := Todo_findByIdAndDelete id in
     ret (bool_decide (result ≠ None)))
    (rethrow "Failed to delete todo").

Definition deleteCompletedTodos : Async nat :=
  try_catch
    (await result :=
       Todo_deleteMany {[ "completed" := Field (Eq (VBool true)) ]} in
     ret (match deletedCount result with O => O | S n => S n end))
    (rethrow "Failed to delete completed todos").

Definition toggleTodoStatus (id : string) : Async (option ITodo) :=
  try_catch
    (await todo := Todo_findById id in
     match todo with
     | None => ret None
     | Some todo =>
         let todo :=
           {| title := title todo; description := description todo;
              status := status todo; priority := priority todo;
              dueDate := dueDate todo; tags := tags todo;
              completed := negb (completed todo);
              createdAt := createdAt todo; updatedAt := updatedAt todo |} in
         let todo :=
           {| title := title todo; description := description todo;
              status := if completed todo then COMPLETED else TODO;
              priority := priority todo;
              dueDate := dueDate todo; tags := tags todo;
              completed := completed todo;
              createdAt := createdAt todo; updatedAt := updatedAt todo |} in
         (* the document found carries the ObjectId that [id] was cast to *)
         await todo := save (ObjectId_of id) todo in
         ret (Some todo)
     end)
    (rethrow "Failed to toggle todo status").

Record TodoStats := mkStats {
  total : nat;
  stats_completed : nat;
  pending : nat;
  byPriority : gmap string nat;
  byStatus : gmap string nat
}.

(** [items.reduce((acc, item) => { acc[item._id] = item.count; return acc }, {})] *)
Definition reduce_counts (items : list GroupCount) : gmap string nat :=
  foldl (λ acc item, <[_id item := count item]> acc) ∅ items.

Definition getTodoStats : Async TodoStats :=
  try_catch
    (await total := Todo_countDocuments ∅ in
     await completed :=
       Todo_countDocuments {[ "completed" := Field (Eq (VBool true)) ]} in
     await pending :=
       Todo_countDocuments {[ "completed" := Field (Eq (VBool false)) ]} in
     await byPriority := Todo_aggregate_group "$priority" in
     await byStatus := Todo_aggregate_group "$status" in
     ret {| total := total;
            stats_completed := completed;
            pending := pending;
            byPriority := reduce_counts byPriority;
            byStatus := reduce_counts byStatus |})
    (rethrow "Failed to fetch todo statistics").

(** ** The resolver [Mutation.updateTodo] (the rendering of the dates in the
    response is left out) *)

Definition resolvers_Mutation_updateTodo (id : string) (input : TodoUpdateInput)
    : Async ITodo :=
  try_catch
    (await todo := updateTodo id input in
     match todo with
     | None => throw (new_Error "Todo not found")
     | Some todo => ret todo
     end)
    (rethrow "Failed to update todo").

End Collection.

(** * The rest of the service, of the resolvers and of the middleware *)

(** ** src/types/TodoTypes.ts: [TodoInput] *)

Record TodoInput := mkInput {
  i_title : string;
  i_description : option string;
  i_priority : option TodoPriority;
  i_dueDate : option DateInput;
  i_tags : option (list string)
}.

(** ** src/models/Todo.ts, lines 81-84: the virtual [isOverdue]

    [new Date()] is the time [t] at which the document is read; a stored
    [Date] is an object, hence truthy. *)
Definition isOverdue (t : Z) (this : ITodo) : bool :=
  match dueDate this with
  | None => false
  | Some due => if completed this then false else due <? t
  end.

Section Creation.

Variable Date_parse : string → option Z.

(** [new Todo(obj)] followed by [save()]: the paths are cast and validated
    as in an update, a path that is absent takes the default of the schema,
    and the title is required.  The document is stamped when it is
    written. *)
Definition cast_new (obj : gmap string JsValue) : Outcome (Z → ITodo) :=
  t ← match obj !! "title" with
       | Some v => path_title v
       | None => Throw (ValidationError "Title is required")
       end;
  de ← on_path path_description (obj !! "description");
  st ← on_path path_status (obj !! "status");
  pr ← on_path path_priority (obj !! "priority");
  du ← on_path (path_dueDate Date_parse) (obj !! "dueDate");
  tg ← on_path path_tags (obj !! "tags");
  co ← on_path path_completed (obj !! "completed");
  Return (λ t0,
    {| title := t;
       description := de;
       status := default TODO st;
       priority := default MEDIUM pr;
       dueDate := default None du;
       tags := default [] tg;
       completed := default false co;
       createdAt := t0;
       updatedAt := t0 |}).

Definition duplicate_key : Thrown :=
  ErrorObj "MongoServerError" "E11000 duplicate key error".

(** The insertion of a new document.  [oid] spells the ObjectId that the
    driver draws for it; the validators run before the store is reached. *)
Definition Todo_create (oid : string) (obj : gmap string JsValue)
    : Async ITodo :=
  await mk := lift (cast_new obj) in
  await _ := connection in
  await _id := cast_id oid in
  await db := get_db in
  match docs db !! _id with
  | Some _ => throw duplicate_key
  | None =>
      let todo := mk (now db) in
      await _ := put_docs (<[_id := todo]> (docs db)) in
      ret todo
  end.

(** TodoService.createTodo, lines 20-28: the object handed to [new Todo].
    A property whose value is [undefined] is left out. *)
Definition newTodoData (input : TodoInput) : gmap string JsValue :=
  let obj : gmap string JsValue := ∅ in
  let obj := <["title" := VStr (i_title input)]> obj in
  let obj :=
    match i_description input with
    | Some v => <["description" := VStr v]> obj
    | None => obj
    end in
  let obj :=
    <["priority" :=
        VStr (TodoPriority_str
                match i_priority input with
                | Some p => if truthy_str (TodoPriority_str p) then p else MEDIUM
                | None => MEDIUM
                end)]> obj in
  let obj := <["status" := VStr (TodoStatus_str TODO)]> obj in
  let obj :=
    match i_dueDate input with
    | Some v => <["dueDate" := VDate v]> obj
    | None => obj
    end in
  let obj :=
    <["tags" := VList match i_tags input with
                      | Some ts => ts
                      | None => []
                      end]> obj in
  let obj := <["completed" := VBool false]> obj in
  obj.

(** TodoService.createTodo *)
Definition createTodo (oid : string) (input : TodoInput) : Async ITodo :=
  try_catch
    (await todo := Todo_create oid (newTodoData input) in
     ret todo)
    (rethrow "Failed to create todo").

(** ** The other resolvers (the rendering of the dates in the responses is
    left out, as for [Mutation.updateTodo]) *)

Definition resolvers_Query_todo (id : string) : Async ITodo :=
  try_catch
    (await todo := getTodoById id in
     match todo with
     | None => throw (new_Error "Todo not found")
     | Some todo => ret todo
     end)
    (rethrow "Failed to fetch todo").

Definition resolvers_Query_todoStats : Async TodoStats :=
  try_catch
    (await stats := getTodoStats Date_parse in
     ret stats)
    (rethrow "Failed to fetch statistics").

Definition resolvers_Mutation_createTodo (oid : string) (input : TodoInput)
    : Async ITodo :=
  try_catch
    (await todo := createTodo oid input in
     ret todo)
    (rethrow "Failed to create todo").

Definition resolvers_Mutation_deleteTodo (id : string) : Async bool :=
  try_catch
    (await deleted := deleteTodo id in
     if negb deleted then throw (new_Error "Todo not found")
     else ret deleted)
    (rethrow "Failed to delete todo").

Definition resolvers_Mutation_deleteCompletedTodos : Async nat :=
  try_catch
    (await n := deleteCompletedTodos Date_parse in
     ret n)
    (rethrow "Failed to delete completed todos").

Definition resolvers_Mutation_toggleTodoStatus (id : string) : Async ITodo :=
  try_catch
    (await todo := toggleTodoStatus id in
     match todo with
     | None => throw (new_Error "Todo not found")
     | Some todo => ret todo
     end)
    (rethrow "Failed to toggle todo status").

End Creation.

(** ** The resolver [Query.todos], lines 41-51: the page information

    [Math.ceil(total / limit)] on integers, the divisor not being 0 (the
    limit never is, see [num_or]). *)
Definition Math_ceil_div (a b : Z) : Z := - ((- a) / b).

Record TodoListInfo := mkListInfo {
  tl_total : Z;
  tl_page : Z;
  tl_limit : Z;
  tl_totalPages : Z
}.

Definition todos_info (pagination : option PaginationInput) (total : Z)
    : TodoListInfo :=
  let page := num_or (pagination ≫= p_page) 1 in
  let limit := num_or (pagination ≫= p_limit) 10 in
  let totalPages := Math_ceil_div total limit in
  mkListInfo total page limit totalPages.

(** ** src/middleware/ErrorHandler.ts *)

(** An [Error] as the handler reads it: its [name], [message] and [stack],
    and, for an [AppError], its [statusCode] and [isOperational]. *)
Record JsError := mkJsError {
  err_name : string;
  err_message : string;
  err_stack : string;
  err_app : option (Z * bool)
}.

(** [new AppError(message, statusCode = 500, isOperational = true)]; the
    class sets no name of its own. *)
Definition new_AppError (message : string) (statusCode : option Z)
    (isOperational : option bool) (stack : string) : JsError :=
  mkJsError "Error" message stack
    (Some (default 500 statusCode, default true isOperational)).

Record Request := mkRequest { req_path : string; req_method : string }.

Record Response := mkResponse {
  res_status : Z;
  res_json : gmap string string
}.

(** What [logger.error("Error occurred:", meta)] is given. *)
Record LogMeta := mkLogMeta {
  log_message : string;
  log_stack : string;
  log_path : string;
  log_method : string
}.

(** [errorHandler(err, req, res, next)]: what it logs and what it answers;
    [NODE_ENV] is [process.env.NODE_ENV]. *)
Definition errorHandler (NODE_ENV : option string) (err : JsError)
    (req : Request) : LogMeta * Response :=
  let logged :=
    mkLogMeta (err_message err) (err_stack err) (req_path req)
      (req_method req) in
  let res :=
    match err_app err with
    | Some (statusCode, _) =>
        mkResponse statusCode
          (<["message" := err_message err]> {[ "status" := "error" ]})
    | None =>
        (* Mongoose validation error *)
        if bool_decide (err_name err = "ValidationError") then
          mkResponse 400
            (<["details" := err_message err]>
               (<["message" := "Validation failed"]> {[ "status" := "error" ]}))
        (* Mongoose cast error (invalid ID) *)
        else if bool_decide (err_name err = "CastError") then
          mkResponse 400
            (<["message" := "Invalid ID format"]> {[ "status" := "error" ]})
        (* Default error *)
        else
          mkResponse 500
            (<["message" :=
                 if bool_decide (NODE_ENV = Some "production")
                 then "Internal server error"
                 else err_message err]> {[ "status" := "error" ]})
    end in
  (logged, res).

(** An [Error] object that was thrown, as the handler receives it. *)
Definition thrown_error (e : Thrown) (stack : string) : option JsError :=
  match e with
  | ErrorObj name message => Some (mkJsError name message stack None)
  | NonError => None
  end.

(** * The vocabulary of the properties *)

(** One guarded assignment [if (test(v)) query[k] = c(v, query)]. *)
Definition assign_if {A} (o : option A) (test : A → bool) (k : string)
    (c : A → Query → Clause) (query : Query) : Query :=
  match o with
  | Some v => if test v then <[k := c v query]> query else query
  | None => query
  end.

(** The value the service stores under [dueDate] when it adds the bound [k]. *)
Definition date_bound (k : string) (d : DateInput) (query : Query) : Clause :=
  Field (Range (<[k := new_Date d]> (spread (query !! "dueDate")))).

(** A date filter that reaches the query: supplied and truthy. *)
Definition date_clause (o : option DateInput) : option JsDate :=
  match o with
  | Some d => if truthy_date d then Some (new_Date d) else None
  | None => None
  end.

(** The properties a query built from filters can have. *)
Definition filter_keys : list string :=
  ["status"; "completed"; "priority"; "tags"; "$or"; "dueDate"].

(** [pagination: {}] *)
Definition noPagination : PaginationInput := mkPagination None None None None.


(** The store takes the update: every value passes its cast and its
    validators. *)
Definition accepted (parse : string → option Z) (input : TodoUpdateInput)
    : Prop :=
  ∃ change, cast_update parse (updateData input) = Return change.

(** The status the service asks for: COMPLETED when the input marks the
    record completed, else the status of the input. *)
Definition status_asked (input : TodoUpdateInput) : option TodoStatus :=
  match u_completed input with
  | Some true => Some COMPLETED
  | _ => u_status input
  end.

(** What a toggle makes of a document at time [t]. *)
Definition toggled (t : Z) (d : ITodo) : ITodo :=
  {| title := title d; description := description d;
     status := if completed d then TODO else COMPLETED;
     priority := priority d; dueDate := dueDate d; tags := tags d;
     completed := negb (completed d);
     createdAt := createdAt d; updatedAt := t |}.

(** Two well-formed ids, and records to try the operations on. *)
Definition sample_id : string := "507f1f77bcf86cd799439011".

(** [{ completed: b }] *)
Definition only_completed (b : bool) : TodoUpdateInput :=
  mkUpdate None None None None None None (Some b).

(** The number of documents on which [key] takes the value [k]. *)
Definition holders (key : ITodo → string) (k : string)
    (m : gmap string ITodo) : nat :=
  size (filter (λ kv : string * ITodo, key kv.2 = k) m).

Definition other_id : string := "507f1f77bcf86cd799439012".

(** An engine that reads a date in no string (the instances below send no
    date). *)
Definition no_parse : string → option Z := λ _, None.

Definition rent : ITodo :=
  mkTodo "pay rent" None IN_PROGRESS HIGH None [] false 0 0.

Definition rent_done : ITodo :=
  mkTodo "pay rent" None COMPLETED HIGH None [] true 0 0.

Definition one_record (d : ITodo) : Db := mkDb {[ sample_id := d ]} None 1.

(** An input that marks the record completed and names another status. *)
Definition completed_but_todo : TodoUpdateInput :=
  mkUpdate None None (Some TODO) None None None (Some true).

(** Unfolds a method of the service down to the state it threads. *)
Ltac run :=
  unfold updateTodo, deleteTodo, toggleTodoStatus, getTodoById,
    deleteCompletedTodos, getTodoStats, resolvers_Mutation_updateTodo,
    Todo_findById, Todo_findByIdAndUpdate, Todo_findByIdAndDelete, save,
    Todo_countDocuments, Todo_deleteMany, Todo_aggregate_group,
    rethrow, try_catch, bind, ret, throw, lift, get_db, put_docs,
    connection, cast_id;
  cbn beta iota.

(** ** The vocabulary of the further properties *)

(** The store takes the new document: every value passes its cast and its
    validators. *)
Definition creatable (parse : string → option Z) (input : TodoInput) : Prop :=
  ∃ mk, cast_new parse (newTodoData input) = Return mk.

(** The due date the store keeps for a value that passes the cast. *)
Definition date_cast (parse : string → option Z) (du : DateInput) : option Z :=
  match castDate parse du with
  | Return v => v
  | Throw _ => None
  end.

(** The document [createTodo] writes for [input] at time [t]. *)
Definition created (parse : string → option Z) (input : TodoInput) (t : Z)
    : ITodo :=
  {| title := trim (i_title input);
     description := trim <$> i_description input;
     status := TODO;
     priority := default MEDIUM (i_priority input);
     dueDate := i_dueDate input ≫= date_cast parse;
     tags := default [] (i_tags input);
     completed := false;
     createdAt := t;
     updatedAt := t |}.

(** [{ title: "call home" }] *)
Definition call_home : TodoInput := mkInput "  call home " None None None None.

(** Unfolds a resolver, then the method of the service under it. *)
Ltac run_more :=
  unfold resolvers_Query_todo, resolvers_Query_todoStats,
    resolvers_Mutation_createTodo, resolvers_Mutation_updateTodo,
    resolvers_Mutation_deleteTodo, resolvers_Mutation_deleteCompletedTodos,
    resolvers_Mutation_toggleTodoStatus;
  unfold createTodo, Todo_create;
  run.

(** What [updateTodo] makes, at time [t], of a document that the input is
    accepted for. *)
Definition updated (parse : string → option Z) (input : TodoUpdateInput)
    (t : Z) (d : ITodo) : ITodo :=
  {| title := match u_title input with Some x => trim x | None => title d end;
     description := match u_description input with
                    | Some x => Some (trim x)
                    | None => description d
                    end;
     status := default (status d) (status_asked input);
     priority := default (priority d) (u_priority input);
     dueDate := match u_dueDate input with
                | Some du => date_cast parse du
                | None => dueDate d
                end;
     tags := default (tags d) (u_tags input);
     completed := default (completed d) (u_completed input);
     createdAt := createdAt d;
     updatedAt := t |}.

(** The sum of the counts of a mapping such as [byStatus]. *)
Definition sum_counts (m : gmap string nat) : nat :=
  map_fold (λ _ n acc, (n + acc)%nat) 0%nat m.

(** [e] is what some method of the service throws on some store. *)
Definition thrown_by_service (parse : string → option Z) (e : Thrown) : Prop :=
  ∃ db : Db,
    (∃ oid input, fst (createTodo parse oid input db) = Throw e)
    ∨ (∃ id, fst (getTodoById id db) = Throw e)
    ∨ (∃ id input, fst (updateTodo parse id input db) = Throw e)
    ∨ (∃ id, fst (deleteTodo id db) = Throw e)
    ∨ fst (deleteCompletedTodos parse db) = Throw e
    ∨ (∃ id, fst (toggleTodoStatus id db) = Throw e)
    ∨ fst (getTodoStats parse db) = Throw e.

(** What a method of the service throws when the call under it threw
    [cause]. *)
Definition rewrapped (what : string) (cause : Thrown) : Thrown :=
  ErrorObj "Error" (what ++ ": " ++ message_of cause).

(** The prefixes the methods of the service put before a message. *)
Definition service_prefixes : list string :=
  ["Failed to create todo"; "Failed to fetch todo"; "Failed to update todo";
   "Failed to delete todo"; "Failed to delete completed todos";
   "Failed to toggle todo status"; "Failed to fetch todo statistics"].

(** The call fails with the plain Error "[what]: [msg]" and leaves [db]. *)
Definition failed_with {A} (what msg : string) (db : Db) : Outcome A * Db :=
  (Throw (ErrorObj "Error" (what ++ ": " ++ msg)), db).

(** A store whose connection is down. *)
Definition down (msg : string) : Db := mkDb ∅ (Some msg) 1.

(** The store can evaluate the query built from the filters: the search
    string is a regular expression the model covers, the date bounds are
    dates. *)
Definition well_posed (parse : string → option Z) (f : TodoFilters) : Prop :=
  (∀ s, f_search f = Some s → s ≠ EmptyString →
     is_Some (regex_compile s "i"))
  ∧ (∀ x, date_clause (f_dueDateBefore f) = Some x → is_Some (time_of parse x))
  ∧ (∀ x, date_clause (f_dueDateAfter f) = Some x → is_Some (time_of parse x)).

(** A record passes every filter that reaches the query. *)
Definition satisfies (parse : string → option Z) (f : TodoFilters) (d : ITodo)
    : Prop :=
  (∀ s, f_status f = Some s → status d = s)
  ∧ (∀ b, f_completed f = Some b → completed d = b)
  ∧ (∀ p, f_priority f = Some p → priority d = p)
  ∧ (∀ ts, f_tags f = Some ts → ts ≠ [] → ∃ t, t ∈ tags d ∧ t ∈ ts)
  ∧ (∀ s re, f_search f = Some s → s ≠ EmptyString →
       regex_compile s "i" = Some re →
       regex_test re (title d) = true
       ∨ ∃ de, description d = Some de ∧ regex_test re de = true)
  ∧ (∀ x b, date_clause (f_dueDateBefore f) = Some x →
       time_of parse x = Some b → ∃ t, dueDate d = Some t ∧ t ≤ b)
  ∧ (∀ x a, date_clause (f_dueDateAfter f) = Some x →
       time_of parse x = Some a → ∃ t, dueDate d = Some t ∧ a ≤ t).

(** The range the service stores under [dueDate]. *)
Definition built_range (before after : option JsDate) : option Clause :=
  match before, after with
  | None, None => None
  | Some b, None => Some (Field (Range {[ "$lte" := b ]}))
  | None, Some a => Some (Field (Range {[ "$gte" := a ]}))
  | Some b, Some a => Some (Field (Range (<["$gte" := a]> {[ "$lte" := b ]})))
  end.

(** The clause the query holds under [k], if any, stands for [C] on the
    record [d]; without a clause, [C] holds of itself. *)
Definition clause_means (parse : string → option Z) (q : Query) (d : ITodo)
    (k : string) (C : Prop) : Prop :=
  match q !! k with
  | Some c => ∃ pc, cast_clause parse k c = Some pc ∧ (pc d = true ↔ C)
  | None => C
  end.

(** Records and inputs to try the further properties on. *)
Definition rent_due : ITodo :=
  mkTodo "pay rent" None IN_PROGRESS HIGH (Some 100) [] false 0 0.

Definition two_records : Db :=
  mkDb {[ sample_id := rent_done; other_id := rent ]} None 1.

(** The no-break space, and the ids above spelled in upper case. *)
Definition nbsp : string := String "160"%char EmptyString.

Definition sample_ID : string := "507F1F77BCF86CD799439011".
Definition other_ID : string := "507F1F77BCF86CD799439012".

Definition blank_title : TodoInput :=
  mkInput (" " ++ nbsp ++ " ") None None None None.

(** [{ title: " call mum ", dueDate: "" }] *)
Definition call_mum : TodoInput :=
  mkInput (nbsp ++ "call mum" ++ nbsp) None None (Some (DateStr EmptyString))
    None.

(** [{ title: " pay the rent ", dueDate: "1700000000000" }] *)
Definition reschedule : TodoUpdateInput :=
  mkUpdate (Some " pay the rent ") None None None
    (Some (DateStr "1700000000000")) None None.

Definition retitle : TodoUpdateInput :=
  mkUpdate (Some " pay the rent ") None None (Some LOW) None None None.

Definition rent_filters : TodoFilters :=
  mkFilters (Some IN_PROGRESS) None None (Some ["home"]) (Some "rent") None None.

(** * Properties *)

(** ** The query built from the filters *)

Lemma assign_if_ne {A} (o : option A) test k c (query : Query) k' :
  k ≠ k' → assign_if o test k c query !! k' = query !! k'.
Proof.
  intros Hne. unfold assign_if.
  destruct o as [v|]; [destruct (test v)|]; try reflexivity.
  by rewrite lookup_insert_ne.
Qed.

Lemma assign_if_eq {A} (o : option A) test k c (query : Query) :
  assign_if o test k c query !! k =
  match o with
  | Some v => if test v then Some (c v query) else query !! k
  | None => query !! k
  end.
Proof.
  unfold assign_if.
  destruct o as [v|]; [destruct (test v)|]; try reflexivity.
  by rewrite lookup_insert_eq.
Qed.

Lemma buildQuery_steps (f : TodoFilters) :
  buildQuery (Some f) =
  assign_if (f_dueDateAfter f) truthy_date "dueDate" (date_bound "$gte")
  (assign_if (f_dueDateBefore f) truthy_date "dueDate" (date_bound "$lte")
  (assign_if (f_search f) truthy_str "$or"
     (λ s _, Or [("title", Regex s "i"); ("description", Regex s "i")])
  (assign_if (f_tags f) (λ ts, 0 <? Z.of_nat (length ts)) "tags"
     (λ ts _, Field (In_ ts))
  (assign_if (f_priority f) (λ p, truthy_str (TodoPriority_str p)) "priority"
     (λ p _, Field (Eq (VStr (TodoPriority_str p))))
  (assign_if (f_completed f) (λ _, true) "completed"
     (λ b _, Field (Eq (VBool b)))
  (assign_if (f_status f) (λ _, true) "status"
     (λ s _, Field (Eq (VStr (TodoStatus_str s)))) ∅)))))).
Proof. reflexivity. Qed.

Lemma truthy_priority (p : TodoPriority) : truthy_str (TodoPriority_str p) = true.
Proof. by destruct p. Qed.

Lemma matches_empty (parse : string → option Z) (d : ITodo) :
  matches parse ∅ d = Some true.
Proof. unfold matches, cast_query. by rewrite map_to_list_empty. Qed.

(** C1 as stated fails: [tags: []] and [search] the empty string are
    supplied, and the query holds no clause for them. *)
Lemma buildQuery_supplied_without_clause :
  let filters := mkFilters None None None (Some []) (Some EmptyString) None None in
  is_Some (f_tags filters) ∧ is_Some (f_search filters) ∧
  buildQuery (Some filters) !! "tags" = None ∧
  buildQuery (Some filters) !! "$or" = None.
Proof. vm_compute. repeat split; eauto. Qed.

(** C1 (amended): the query holds a status, completed or priority clause
    exactly when that filter is supplied; a tags clause exactly when a
    non-empty tag list is supplied; a search clause ([$or] over title and
    description) exactly when a non-empty search string is supplied; a
    dueDate range whose [$lte] is there exactly when dueDateBefore is
    supplied and truthy and whose [$gte] is there exactly when dueDateAfter
    is; no other field.  Without filters the query is empty, and the empty
    query matches every record. *)
Theorem buildQuery_clauses (f : TodoFilters) :
  let query := buildQuery (Some f) in
  query !! "status"
    = (λ s, Field (Eq (VStr (TodoStatus_str s)))) <$> f_status f
  ∧ query !! "completed" = (λ b, Field (Eq (VBool b))) <$> f_completed f
  ∧ query !! "priority"
    = (λ p, Field (Eq (VStr (TodoPriority_str p)))) <$> f_priority f
  ∧ query !! "tags"
    = match f_tags f with
      | Some (t :: ts) => Some (Field (In_ (t :: ts)))
      | _ => None
      end
  ∧ query !! "$or"
    = match f_search f with
      | Some (String c s) =>
          Some (Or [("title", Regex (String c s) "i");
                    ("description", Regex (String c s) "i")])
      | _ => None
      end
  ∧ match query !! "dueDate" with
    | Some (Field (Range bounds)) =>
        bounds !! "$lte" = date_clause (f_dueDateBefore f)
        ∧ bounds !! "$gte" = date_clause (f_dueDateAfter f)
        ∧ (∀ k, k ≠ "$lte" → k ≠ "$gte" → bounds !! k = None)
        ∧ bounds ≠ ∅
    | Some _ => False
    | None =>
        date_clause (f_dueDateBefore f) = None
        ∧ date_clause (f_dueDateAfter f) = None
    end
  ∧ (∀ k, k ∉ filter_keys → query !! k = None)
  ∧ (∀ pagination, fr_query (getTodos_request (Some f) pagination) = query)
  ∧ buildQuery None = ∅
  ∧ buildQuery (Some noFilters) = ∅
  ∧ ∀ parse d, matches parse (buildQuery None) d = Some true.
Proof.
  cbv zeta. rewrite buildQuery_steps.
  repeat match goal with |- _ ∧ _ => split end.
  - rewrite !assign_if_ne by done. rewrite assign_if_eq, lookup_empty.
    by destruct (f_status f).
  - rewrite !assign_if_ne by done. rewrite assign_if_eq, assign_if_ne by done.
    rewrite lookup_empty. by destruct (f_completed f).
  - rewrite !assign_if_ne by done. rewrite assign_if_eq, !assign_if_ne by done.
    rewrite lookup_empty.
    destruct (f_priority f) as [p|]; [|done]. by rewrite truthy_priority.
  - rewrite !assign_if_ne by done. rewrite assign_if_eq, !assign_if_ne by done.
    rewrite lookup_empty. by destruct (f_tags f) as [[|t ts]|].
  - rewrite !assign_if_ne by done. rewrite assign_if_eq, !assign_if_ne by done.
    rewrite lookup_empty. by destruct (f_search f) as [[|c s]|].
  - match goal with
    | |- context [assign_if (f_dueDateBefore f) _ _ _ ?q] => set (q5 := q)
    end.
    assert (H5 : q5 !! "dueDate" = None).
    { subst q5. rewrite !assign_if_ne by done. apply lookup_empty. }
    rewrite assign_if_eq. unfold date_bound. rewrite !assign_if_eq, H5.
    unfold date_clause.
    destruct (f_dueDateAfter f) as [a|], (f_dueDateBefore f) as [b|];
      try destruct (truthy_date a); try destruct (truthy_date b); simpl;
      repeat split; intros; simplify_map_eq; try done.
    all: intros Hf.
    all: first
      [ apply (f_equal (λ m : gmap string JsDate, m !! "$gte")) in Hf;
        by simplify_map_eq
      | apply (f_equal (λ m : gmap string JsDate, m !! "$lte")) in Hf;
        by simplify_map_eq ].
  - intros k Hk.
    assert (Hne : ∀ k', k' ∈ filter_keys → k' ≠ k) by (by intros k' Hin ->).
    rewrite !assign_if_ne by (apply Hne; unfold filter_keys; set_solver).
    apply lookup_empty.
  - reflexivity.
  - reflexivity.
  - reflexivity.
  - intros parse d. apply matches_empty.
Qed.

(** ** Pagination *)

Lemma round53_exact (z : Z) : Z.abs z ≤ 2 ^ 53 → round53 z = z.
Proof.
  intros Hz. unfold round53.
  destruct (decide (Z.abs z = 2 ^ 53)) as [Heq|Hne].
  - rewrite Heq.
    destruct (Z.abs_eq_or_opp z) as [H|H]; rewrite H in Heq.
    + by rewrite Heq.
    + replace z with (- 2 ^ 53) by lia. reflexivity.
  - destruct (decide (Z.abs z = 0)) as [H0|H0].
    + by rewrite H0.
    + assert (Hlog : Z.log2 (Z.abs z) < 53) by (apply Z.log2_lt_pow2; lia).
      by rewrite (proj2 (Z.leb_le _ _)) by lia.
Qed.

Lemma round53_nonneg (z : Z) : 0 ≤ z → 0 ≤ round53 z.
Proof.
  intros Hz. unfold round53.
  destruct (Z.log2 (Z.abs z) - 52 <=? 0) eqn:He; [done|].
  apply Z.leb_gt in He.
  assert (Hp : 0 < 2 ^ (Z.log2 (Z.abs z) - 52))
    by (apply Z.pow_pos_nonneg; lia).
  assert (Hq : 0 ≤ Z.abs z / 2 ^ (Z.log2 (Z.abs z) - 52))
    by (apply Z.div_pos; lia).
  apply Z.mul_nonneg_nonneg; [lia|]. unfold nearest_even.
  repeat case_match; nia.
Qed.

Lemma to_double_exact (z : Z) : Z.abs z ≤ 2 ^ 53 → to_double z = Int z.
Proof.
  intros Hz. unfold to_double. rewrite (round53_exact z Hz).
  assert (2 ^ 53 < 2 ^ 1024) by (by apply Z.pow_lt_mono_r).
  rewrite (proj2 (Z.leb_gt _ _)) by lia.
  by rewrite (proj2 (Z.leb_gt _ _)) by lia.
Qed.

Lemma to_double_nonneg (z : Z) :
  0 ≤ z → to_double z = Infinity ∨ ∃ r, to_double z = Int r ∧ 0 ≤ r.
Proof.
  intros Hz. pose proof (round53_nonneg z Hz) as Hr. unfold to_double.
  destruct (2 ^ 1024 <=? round53 z); [by left|]. right.
  assert (0 < 2 ^ 1024) by (by apply Z.pow_pos_nonneg).
  rewrite (proj2 (Z.leb_gt _ _)) by lia. eauto.
Qed.

Lemma num_or_nonzero (x : option Z) (d : Z) : d ≠ 0 → num_or x d ≠ 0.
Proof.
  intros Hd. unfold num_or. destruct x as [v|]; [|done].
  destruct (v =? 0) eqn:Hv; [done|]. by apply Z.eqb_neq.
Qed.

(** C2 as stated fails: a negative page is used as it is, and the offset it
    gives is negative. *)
Lemma paginate_negative_page_kept :
  let pg := paginate (Some (mkPagination (Some (-1)) (Some 5) None None)) in
  page pg = -1 ∧ limit pg = 5 ∧ skip pg = Int (-10) ∧ ¬ (1 ≤ page pg).
Proof. vm_compute. repeat split; congruence. Qed.

(** C2 (amended): page is 1 and limit is 10 when absent or 0; every other
    value supplied, a negative one included, is used as it is (nothing is
    clamped); skip is the product (page - 1) * limit in the arithmetic of
    doubles: it is that product whenever the product is at most 2^53 in
    absolute value, and it is not negative when page and limit are at least
    1; page 2 with limit 5 gives skip 5 and limit 5; absent pagination gives
    skip 0 and limit 10. *)
Theorem paginate_defaults (pagination : option PaginationInput) :
  let pg := paginate pagination in
  (∀ filters,
     fr_skip (getTodos_request filters pagination) = skip pg
     ∧ fr_limit (getTodos_request filters pagination) = limit pg)
  ∧ (pagination ≫= p_page = None ∨ pagination ≫= p_page = Some 0 → page pg = 1)
  ∧ (∀ v, pagination ≫= p_page = Some v → v ≠ 0 → page pg = v)
  ∧ (pagination ≫= p_limit = None ∨ pagination ≫= p_limit = Some 0
     → limit pg = 10)
  ∧ (∀ v, pagination ≫= p_limit = Some v → v ≠ 0 → limit pg = v)
  ∧ skip pg = to_double (round53 (page pg - 1) * limit pg)
  ∧ (Z.abs ((page pg - 1) * limit pg) ≤ 2 ^ 53 →
     skip pg = Int ((page pg - 1) * limit pg))
  ∧ (1 ≤ page pg → 1 ≤ limit pg →
     skip pg = Infinity ∨ ∃ z, skip pg = Int z ∧ 0 ≤ z)
  ∧ (let pg25 := paginate (Some (mkPagination (Some 2) (Some 5) None None)) in
     skip pg25 = Int 5 ∧ limit pg25 = 5)
  ∧ skip (paginate None) = Int 0 ∧ limit (paginate None) = 10
  ∧ skip (paginate (Some noPagination)) = Int 0
  ∧ limit (paginate (Some noPagination)) = 10.
Proof.
  cbv zeta. unfold paginate. simpl page. simpl limit. simpl skip.
  repeat match goal with |- _ ∧ _ => split end; try reflexivity.
  - by intros filters.
  - intros [-> | ->]; reflexivity.
  - intros v -> Hv. unfold num_or. by apply Z.eqb_neq in Hv as ->.
  - intros [-> | ->]; reflexivity.
  - intros v -> Hv. unfold num_or. by apply Z.eqb_neq in Hv as ->.
  - intros Hprod.
    pose proof (num_or_nonzero (pagination ≫= p_limit) 10 ltac:(done)) as Hl.
    rewrite round53_exact by nia. by apply to_double_exact.
  - intros Hp Hl. apply to_double_nonneg.
    apply Z.mul_nonneg_nonneg; [apply round53_nonneg|]; lia.
Qed.

(** Beyond 2^53 the product is rounded: with page and limit both at the
    largest GraphQL [Int], the exact product ends in ...962 and the offset
    the service sends is the double next to it. *)
Example paginate_rounds_skip :
  skip (paginate (Some (mkPagination (Some 2147483647) (Some 2147483647)
                          None None)))
  = Int 4611686011984936960
  ∧ (2147483647 - 1) * 2147483647 = 4611686011984936962.
Proof. split; [by vm_compute|reflexivity]. Qed.

(** ** The search clause *)










(** ** The mutations that target one id *)

Lemma status_of_str_str (s : TodoStatus) : status_of_str (TodoStatus_str s) = Some s.
Proof. by destruct s. Qed.

Lemma updateData_status (input : TodoUpdateInput) :
  updateData input !! "status" =
  match u_completed input with
  | Some true => Some (VStr (TodoStatus_str COMPLETED))
  | _ => (λ s, VStr (TodoStatus_str s)) <$> u_status input
  end.
Proof.
  destruct input as [[?|] [?|] [?|] [?|] [?|] [?|] [[|]|]]; reflexivity.
Qed.

Lemma updateData_completed (input : TodoUpdateInput) :
  updateData input !! "completed" = VBool <$> u_completed input.
Proof.
  destruct input as [[?|] [?|] [?|] [?|] [?|] [?|] [[|]|]]; reflexivity.
Qed.

Lemma updateData_others (input : TodoUpdateInput) :
  updateData input !! "title" = VStr <$> u_title input
  ∧ updateData input !! "description" = VStr <$> u_description input
  ∧ updateData input !! "priority"
    = (λ p, VStr (TodoPriority_str p)) <$> u_priority input
  ∧ updateData input !! "dueDate" = VDate <$> u_dueDate input
  ∧ updateData input !! "tags" = VList <$> u_tags input.
Proof.
  destruct input as [[?|] [?|] [?|] [?|] [?|] [?|] [[|]|]];
    repeat split; reflexivity.
Qed.

Lemma on_path_status (o : option TodoStatus) :
  on_path path_status ((λ s, VStr (TodoStatus_str s)) <$> o) = Return o.
Proof. by destruct o as [[]|]. Qed.

Lemma on_path_priority (o : option TodoPriority) :
  on_path path_priority ((λ p, VStr (TodoPriority_str p)) <$> o) = Return o.
Proof. by destruct o as [[]|]. Qed.

Lemma on_path_tags (o : option (list string)) :
  on_path path_tags (VList <$> o) = Return o.
Proof. by destruct o. Qed.

Lemma on_path_completed (o : option bool) :
  on_path path_completed (VBool <$> o) = Return o.
Proof. by destruct o. Qed.

#[local] Arguments path_title : simpl never.
#[local] Arguments path_description : simpl never.
#[local] Arguments time_of : simpl never.
#[local] Arguments castDate : simpl never.
#[local] Arguments ObjectId_of : simpl never.

Section Service_properties.

Variable parse : string → option Z.

(** What [$set: updateData] does to a document, path by path. *)
Lemma cast_update_updateData (input : TodoUpdateInput) :
  cast_update parse (updateData input) =
  (t ← on_path path_title (VStr <$> u_title input);
   de ← on_path path_description (VStr <$> u_description input);
   du ← on_path (path_dueDate parse) (VDate <$> u_dueDate input);
   Return (λ d,
     {| title := default (title d) t;
        description := match de with Some x => Some x | None => description d end;
        status := default (status d) (status_asked input);
        priority := default (priority d) (u_priority input);
        dueDate := default (dueDate d) du;
        tags := default (tags d) (u_tags input);
        completed := default (completed d) (u_completed input);
        createdAt := createdAt d;
        updatedAt := updatedAt d |})).
Proof.
  unfold cast_update.
  destruct (updateData_others input) as (-> & -> & -> & -> & ->).
  rewrite updateData_status, updateData_completed.
  rewrite on_path_priority, on_path_tags, on_path_completed.
  replace (match u_completed input with
           | Some true => Some (VStr (TodoStatus_str COMPLETED))
           | _ => (λ s, VStr (TodoStatus_str s)) <$> u_status input
           end)
    with ((λ s, VStr (TodoStatus_str s)) <$> status_asked input)
    by (unfold status_asked; by destruct (u_completed input) as [[]|]).
  rewrite on_path_status.
  destruct (on_path path_title (VStr <$> u_title input)); [|reflexivity].
  destruct (on_path path_description (VStr <$> u_description input));
    [|reflexivity].
  cbn. by destruct (on_path (path_dueDate parse) (VDate <$> u_dueDate input)).
Qed.

(** Only the title, the description and the due date can make the store
    refuse an update. *)
Lemma accepted_iff (input : TodoUpdateInput) :
  accepted parse input ↔
  (∀ t, u_title input = Some t → ∃ t', path_title (VStr t) = Return t')
  ∧ (∀ de, u_description input = Some de →
       ∃ de', path_description (VStr de) = Return de')
  ∧ (∀ du, u_dueDate input = Some du → ∃ v, castDate parse du = Return v).
Proof.
  unfold accepted. rewrite cast_update_updateData. split.
  - intros [change H].
    destruct (u_title input) as [t|]; cbn in H;
      [destruct (path_title (VStr t)) eqn:Ht; [|done]|];
    (destruct (u_description input) as [de|]; cbn in H;
      [destruct (path_description (VStr de)) eqn:Hde; [|done]|]);
    (destruct (u_dueDate input) as [du|]; cbn in H;
      [destruct (castDate parse du) eqn:Hdu; [|done]|]);
    repeat split; intros ? [= <-]; eauto.
  - intros (Ht & Hde & Hdu).
    destruct (u_title input) as [t|]; cbn;
      [destruct (Ht t eq_refl) as [? ->]|];
    (destruct (u_description input) as [de|]; cbn;
      [destruct (Hde de eq_refl) as [? ->]|]);
    (destruct (u_dueDate input) as [du|]; cbn;
      [destruct (Hdu du eq_refl) as [? ->]|]);
    cbn; eauto.
Qed.

Lemma cast_update_fields (set : gmap string JsValue) (change : ITodo → ITodo) :
  cast_update parse set = Return change →
  ∀ d,
    match set !! "status" with
    | Some v => path_status v = Return (status (change d))
    | None => status (change d) = status d
    end
    ∧ match set !! "completed" with
      | Some v => path_completed v = Return (completed (change d))
      | None => completed (change d) = completed d
      end.
Proof.
  unfold cast_update. intros H d.
  repeat match type of H with
  | context [on_path ?f ?o] =>
      let r := fresh "r" in
      destruct o as [?|]; cbn [on_path mbind Outcome_bind mret Outcome_ret] in H;
      [ destruct (f _) as [r|] eqn:?;
        cbn [on_path mbind Outcome_bind mret Outcome_ret] in H;
        [|discriminate H] |]
  end.
  all: injection H as <-; cbn; done.
Qed.

Lemma updateTodo_existing id input db d change :
  outage db = None → isObjectId id = true →
  cast_update parse (updateData input) = Return change →
  docs db !! ObjectId_of id = Some d →
  updateTodo parse id input db
  = (Return (Some (touch (now db) (change d))),
     with_docs (<[ObjectId_of id := touch (now db) (change d)]> (docs db)) db).
Proof.
  intros Hout Hid Hc Hd. run. rewrite Hout, Hid, Hc. cbn. rewrite Hd.
  reflexivity.
Qed.

Lemma updateTodo_absent id input db change :
  outage db = None → isObjectId id = true →
  cast_update parse (updateData input) = Return change →
  docs db !! ObjectId_of id = None →
  updateTodo parse id input db = (Return None, db).
Proof.
  intros Hout Hid Hc Hd. run. rewrite Hout, Hid, Hc. cbn. rewrite Hd.
  reflexivity.
Qed.

(** C4 (amended): updating an id that the store does not hold (the store
    reachable, the id well formed and the ObjectId it spells, in either
    case of its digits, not in the store, the input accepted by the
    validators) raises nothing in the service: it returns null and leaves
    the store as it was.  The resolver turns the null into a plain [Error]
    whose message is "Failed to update todo: Todo not found"; there is no
    error kind of its own for a missing record. *)
Theorem updateTodo_missing_id (id : string) (input : TodoUpdateInput) (db : Db) :
  outage db = None → isObjectId id = true → accepted parse input →
  docs db !! ObjectId_of id = None →
  updateTodo parse id input db = (Return None, db)
  ∧ resolvers_Mutation_updateTodo parse id input db
    = (Throw (ErrorObj "Error" "Failed to update todo: Todo not found"), db).
Proof.
  intros Hout Hid [change Hc] Hd.
  pose proof (updateTodo_absent id input db change Hout Hid Hc Hd) as Hu.
  split; [exact Hu|].
  unfold resolvers_Mutation_updateTodo, try_catch, bind. rewrite Hu.
  reflexivity.
Qed.

(** C5: on an existing record, an update whose input has completed = true
    gives a record with status COMPLETED (and completed true) whatever the
    status was and whatever status the input names; an update whose input
    names status COMPLETED and does not mention completed leaves completed
    as it was. *)
Theorem update_completed_forces_status (id : string) (input : TodoUpdateInput)
    (db : Db) (d : ITodo) :
  outage db = None → isObjectId id = true → accepted parse input →
  docs db !! ObjectId_of id = Some d →
  ∃ d',
    fst (updateTodo parse id input db) = Return (Some d')
    ∧ docs (snd (updateTodo parse id input db)) !! ObjectId_of id = Some d'
    ∧ (u_completed input = Some true →
       status d' = COMPLETED ∧ completed d' = true)
    ∧ (u_completed input = None → u_status input = Some COMPLETED →
       status d' = COMPLETED ∧ completed d' = completed d).
Proof.
  intros Hout Hid [change Hc] Hd.
  rewrite (updateTodo_existing id input db d change Hout Hid Hc Hd).
  eexists. split; [reflexivity|]. split; [cbn; by rewrite lookup_insert_eq|].
  destruct (cast_update_fields _ _ Hc d) as [Hs Hco].
  rewrite updateData_status in Hs. rewrite updateData_completed in Hco.
  split.
  - intros Htrue. rewrite Htrue in Hs, Hco. cbn in Hs, Hco.
    injection Hs as Hs. injection Hco as Hco. cbn. by rewrite <- Hs, <- Hco.
  - intros Hnone Hst. rewrite Hnone in Hs, Hco. rewrite Hst in Hs.
    cbn in Hs, Hco. injection Hs as Hs. cbn. by rewrite <- Hs, Hco.
Qed.

(** C9: on an existing record, an update whose input has completed = false
    and no status leaves the status as it was; applied to a record whose
    status is COMPLETED it gives status COMPLETED with completed false. *)
Theorem update_uncomplete_keeps_status (id : string) (input : TodoUpdateInput)
    (db : Db) (d : ITodo) :
  outage db = None → isObjectId id = true → accepted parse input →
  docs db !! ObjectId_of id = Some d →
  u_completed input = Some false → u_status input = None →
  ∃ d',
    fst (updateTodo parse id input db) = Return (Some d')
    ∧ docs (snd (updateTodo parse id input db)) !! ObjectId_of id = Some d'
    ∧ status d' = status d
    ∧ completed d' = false
    ∧ (status d = COMPLETED → status d' = COMPLETED ∧ completed d' = false).
Proof.
  intros Hout Hid [change Hc] Hd Hfalse Hst.
  rewrite (updateTodo_existing id input db d change Hout Hid Hc Hd).
  eexists. split; [reflexivity|]. split; [cbn; by rewrite lookup_insert_eq|].
  destruct (cast_update_fields _ _ Hc d) as [Hs Hco].
  rewrite updateData_status in Hs. rewrite updateData_completed in Hco.
  rewrite Hfalse in Hs, Hco. rewrite Hst in Hs. cbn in Hs, Hco.
  injection Hco as Hco. cbn. rewrite Hs, <- Hco. by repeat split.
Qed.

End Service_properties.

(** ** Toggling *)

Lemma toggleTodoStatus_existing (id : string) (db : Db) (d : ITodo) :
  outage db = None → isObjectId id = true →
  docs db !! ObjectId_of id = Some d →
  toggleTodoStatus id db
  = (Return (Some (toggled (now db) d)),
     with_docs (<[ObjectId_of id := toggled (now db) d]> (docs db)) db).
Proof.
  intros Hout Hid Hd. run. rewrite Hout, Hid. cbn. rewrite Hd. cbn.
  rewrite Hout. cbn. unfold toggled, touch. cbn. by destruct (completed d).
Qed.

(** C6 as stated fails: a record with status COMPLETED and completed false
    (reached here by completing a fresh record and un-completing it through
    two updates) is not the excepted IN_PROGRESS record, and two toggles
    leave it at status TODO, not at its original status. *)
Lemma toggle_twice_not_restoring :
  let fresh := mkTodo "pay rent" None TODO MEDIUM None [] false 0 0 in
  let created := mkDb {[ sample_id := fresh ]} None 1 in
  let db :=
    snd (updateTodo no_parse sample_id (only_completed false)
           (snd (updateTodo no_parse sample_id (only_completed true)
                   created))) in
  let db2 := snd (toggleTodoStatus sample_id
                    (snd (toggleTodoStatus sample_id db))) in
  ∃ d d2,
    docs db !! sample_id = Some d
    ∧ (status d, completed d) = (COMPLETED, false)
    ∧ (status d, completed d) ≠ (IN_PROGRESS, false)
    ∧ docs db2 !! sample_id = Some d2
    ∧ (status d2, completed d2) = (TODO, false)
    ∧ (status d2, completed d2) ≠ (status d, completed d).
Proof.
  cbv zeta. eexists _, _.
  split; [by vm_compute|]. split; [reflexivity|]. split; [done|].
  split; [by vm_compute|]. split; [reflexivity|]. done.
Qed.

(** C6 (amended): on an existing record one toggle flips completed and sets
    status to COMPLETED if the record is now completed, else to TODO; two
    toggles restore completed and leave status COMPLETED if the record was
    completed at the start, else TODO.  So two toggles give back the
    original completed/status pair exactly when it was (TODO, false) or
    (COMPLETED, true); a record that started at IN_PROGRESS with completed
    false ends at TODO with completed false. *)
Theorem toggle_twice (id : string) (db : Db) (d : ITodo) :
  outage db = None → isObjectId id = true →
  docs db !! ObjectId_of id = Some d →
  let r1 := toggleTodoStatus id db in
  let r2 := toggleTodoStatus id (snd r1) in
  ∃ d1 d2,
    fst r1 = Return (Some d1)
    ∧ docs (snd r1) !! ObjectId_of id = Some d1
    ∧ completed d1 = negb (completed d)
    ∧ status d1 = (if completed d1 then COMPLETED else TODO)
    ∧ fst r2 = Return (Some d2)
    ∧ docs (snd r2) !! ObjectId_of id = Some d2
    ∧ completed d2 = completed d
    ∧ status d2 = (if completed d then COMPLETED else TODO)
    ∧ ((status d2, completed d2) = (status d, completed d)
       ↔ (status d, completed d) = (TODO, false)
         ∨ (status d, completed d) = (COMPLETED, true))
    ∧ (status d = IN_PROGRESS → completed d = false →
       status d2 = TODO ∧ completed d2 = false).
Proof.
  intros Hout Hid Hd. cbv zeta.
  rewrite (toggleTodoStatus_existing id db d Hout Hid Hd).
  cbn [fst snd].
  rewrite (toggleTodoStatus_existing id _ (toggled (now db) d));
    [|done|done|cbn; by rewrite lookup_insert_eq].
  cbn [fst snd]. eexists _, _.
  repeat match goal with |- _ ∧ _ => split end; try reflexivity.
  - cbn. by rewrite lookup_insert_eq.
  - cbn. by destruct (completed d).
  - cbn. by rewrite lookup_insert_eq.
  - cbn. by destruct (completed d).
  - cbn. by destruct (completed d).
  - cbn. destruct (completed d), (status d); split; intros H;
      try done; try (by left); try (by right); by destruct H.
  - cbn. by intros _ ->.
Qed.

(** An instance of the toggle theorem: the record that starts at IN_PROGRESS. *)
Lemma toggle_twice_witness :
  let d := mkTodo "pay rent" None IN_PROGRESS MEDIUM None [] false 0 0 in
  let db := mkDb {[ sample_id := d ]} None 1 in
  let r1 := toggleTodoStatus sample_id db in
  let r2 := toggleTodoStatus sample_id (snd r1) in
  ∃ d1 d2,
    fst r1 = Return (Some d1)
    ∧ docs (snd r1) !! ObjectId_of sample_id = Some d1
    ∧ completed d1 = negb (completed d)
    ∧ status d1 = (if completed d1 then COMPLETED else TODO)
    ∧ fst r2 = Return (Some d2)
    ∧ docs (snd r2) !! ObjectId_of sample_id = Some d2
    ∧ completed d2 = completed d
    ∧ status d2 = (if completed d then COMPLETED else TODO)
    ∧ ((status d2, completed d2) = (status d, completed d)
       ↔ (status d, completed d) = (TODO, false)
         ∨ (status d, completed d) = (COMPLETED, true))
    ∧ (status d = IN_PROGRESS → completed d = false →
       status d2 = TODO ∧ completed d2 = false).
Proof.
  apply (toggle_twice sample_id
           (mkDb {[ sample_id :=
                      mkTodo "pay rent" None IN_PROGRESS MEDIUM None [] false 0 0 ]}
                 None 1)
           (mkTodo "pay rent" None IN_PROGRESS MEDIUM None [] false 0 0)).
  - reflexivity.
  - vm_compute. reflexivity.
  - vm_compute. reflexivity.
Defined.

(** ** Frame: the records an id-targeted mutation does not name *)

(** C10: update, toggle and delete-by-id leave every record under another
    id as it was: for a well-formed id, every record whose ObjectId is not
    the one the id spells (in either case of its digits) is untouched, and
    when that ObjectId is not in the store, the store as a whole is as it
    was; for a string that is no ObjectId the cast fails and the store as a
    whole is as it was (a string of 12 characters is left out: some
    versions of the driver read it as the twelve bytes themselves). *)
Theorem id_mutations_frame (parse : string → option Z) (id : string)
    (input : TodoUpdateInput) (db : Db) :
  (isObjectId id = true →
     (∀ j, j ≠ ObjectId_of id →
        docs (snd (updateTodo parse id input db)) !! j = docs db !! j
        ∧ docs (snd (toggleTodoStatus id db)) !! j = docs db !! j
        ∧ docs (snd (deleteTodo id db)) !! j = docs db !! j)
     ∧ (docs db !! ObjectId_of id = None →
        snd (updateTodo parse id input db) = db
        ∧ snd (toggleTodoStatus id db) = db
        ∧ snd (deleteTodo id db) = db))
  ∧ (isObjectId id = false → String.length id ≠ 12%nat →
     snd (updateTodo parse id input db) = db
     ∧ snd (toggleTodoStatus id db) = db
     ∧ snd (deleteTodo id db) = db).
Proof.
  split; [intros Hid; split|intros Hid _].
  - intros j Hj. run. rewrite Hid.
    destruct (outage db) eqn:Hout; [done|]. cbn.
    repeat split.
    + destruct (cast_update parse (updateData input)); [|done].
      destruct (docs db !! ObjectId_of id); [|done]. cbn.
      by rewrite lookup_insert_ne.
    + destruct (docs db !! ObjectId_of id); [|done]. cbn. rewrite Hout. cbn.
      by rewrite lookup_insert_ne.
    + destruct (docs db !! ObjectId_of id); [|done]. cbn.
      by rewrite lookup_delete_ne.
  - intros Hnone. run. rewrite Hid.
    destruct (outage db); [done|]. cbn. rewrite Hnone.
    by destruct (cast_update parse (updateData input)).
  - run. rewrite Hid. by destruct (outage db).
Qed.

(** The id is read in either case of its digits: sent in upper case, it
    names the record the store holds under the same digits. *)
Example upper_case_id_names_the_record :
  let db := mkDb {[ "507f1f77bcf86cd799439011" :=
                      mkTodo "pay rent" None TODO MEDIUM None [] false 0 0 ]}
              None 1 in
  fst (getTodoById "507F1F77BCF86CD799439011" db)
  = Return (Some (mkTodo "pay rent" None TODO MEDIUM None [] false 0 0))
  ∧ deleteTodo "507F1F77BCF86CD799439011" db = (Return true, mkDb ∅ None 1).
Proof. split; by vm_compute. Qed.

(** ** Counting *)

Lemma cast_query_completed (parse : string → option Z) (b : bool) :
  ∃ p, cast_query parse {[ "completed" := Field (Eq (VBool b)) ]} = Some p
       ∧ ∀ d, p d = true ↔ completed d = b.
Proof.
  eexists. split.
  - unfold cast_query. rewrite map_to_list_singleton. reflexivity.
  - intros d. cbn. rewrite andb_true_r, bool_decide_eq_true.
    change (field_value "completed" d) with (Some (VBool (completed d))).
    split; [by intros [= ->]|by intros ->].
Qed.

Lemma cast_query_all (parse : string → option Z) :
  ∃ p, cast_query parse ∅ = Some p ∧ ∀ d, p d = true.
Proof.
  eexists. split.
  - unfold cast_query. rewrite map_to_list_empty. reflexivity.
  - done.
Qed.

Lemma selected_ext (p : ITodo → bool) (Q : ITodo → Prop)
    `{!∀ d, Decision (Q d)} (m : gmap string ITodo) :
  (∀ d, p d = true ↔ Q d) →
  selected p m = filter (λ kv : string * ITodo, Q kv.2) m.
Proof.
  intros Hpq. unfold selected. apply map_filter_ext. intros i x _. apply Hpq.
Qed.

Lemma selected_all (p : ITodo → bool) (m : gmap string ITodo) :
  (∀ d, p d = true) → selected p m = m.
Proof. intros H. unfold selected. apply map_filter_id. intros i x _. apply H. Qed.

Lemma tally_lookup (key : ITodo → string) (m : gmap string ITodo) (k : string) :
  tally key m !! k
  = match holders key k m with O => None | S n => Some (S n) end.
Proof.
  unfold tally. revert k.
  apply (map_fold_weak_ind (λ r m, ∀ k,
    r !! k = match holders key k m with O => None | S n => Some (S n) end)).
  - intros k. unfold holders.
    by rewrite lookup_empty, map_filter_empty, map_size_empty.
  - intros i x m' r Hi IH k. unfold holders in *.
    assert (Hf : ∀ k', filter (λ kv : string * ITodo, key kv.2 = k') m' !! i = None).
    { intros k'. apply map_lookup_filter_None. by left. }
    destruct (decide (key x = k)) as [<-|Hne].
    + rewrite lookup_insert_eq, map_filter_insert_True by done.
      rewrite map_size_insert_None by done. rewrite IH.
      by destruct (size _).
    + rewrite lookup_insert_ne by done.
      rewrite map_filter_insert_False by done.
      rewrite delete_id by done. apply IH.
Qed.

Lemma reduce_counts_acc (l : list (string * nat)) (acc : gmap string nat)
    (k : string) :
  NoDup l.*1 →
  foldl (λ acc item, <[_id item := count item]> acc) acc
    ((λ kv : string * nat, mkGroup kv.1 kv.2) <$> l) !! k
  = match (list_to_map l : gmap string nat) !! k with
    | Some v => Some v
    | None => acc !! k
    end.
Proof.
  revert acc. induction l as [|[k0 v0] l IH]; intros acc Hnd.
  - cbn [fmap list_fmap foldl list_to_map foldr]. by rewrite lookup_empty.
  - rewrite fmap_cons in Hnd. apply NoDup_cons in Hnd as [Hk0 Hnd].
    cbn [fmap list_fmap foldl fst snd _id count list_to_map foldr uncurry].
    rewrite IH by done.
    destruct (decide (k0 = k)) as [<-|Hne].
    + rewrite lookup_insert_eq.
      rewrite (proj1 (not_elem_of_list_to_map l k0)) by done.
      by rewrite lookup_insert_eq.
    + rewrite !(lookup_insert_ne _ k0 k) by done. done.
Qed.

Lemma reduce_counts_map_to_list (m : gmap string nat) :
  reduce_counts ((λ kv : string * nat, mkGroup kv.1 kv.2) <$> map_to_list m) = m.
Proof.
  apply map_eq. intros k. unfold reduce_counts.
  rewrite reduce_counts_acc by apply NoDup_fst_map_to_list.
  rewrite list_to_map_to_list, lookup_empty. by destruct (m !! k).
Qed.

Lemma with_docs_id (db : Db) : with_docs (docs db) db = db.
Proof. by destruct db. Qed.

Lemma Todo_countDocuments_run (parse : string → option Z) (q : Query)
    (p : ITodo → bool) (db : Db) :
  outage db = None → cast_query parse q = Some p →
  Todo_countDocuments parse q db = (Return (size (selected p (docs db))), db).
Proof. intros Hout Hq. run. by rewrite Hout, Hq. Qed.

Lemma Todo_aggregate_group_run (parse : string → option Z) (path : string)
    (key : ITodo → string) (db : Db) :
  outage db = None → group_key path = Some key →
  Todo_aggregate_group path db
  = (Return ((λ kv : string * nat, mkGroup kv.1 kv.2)
               <$> map_to_list (tally key (docs db))), db).
Proof. intros Hout Hk. run. by rewrite Hout, Hk. Qed.

Lemma tally_sparse (key : ITodo → string) (m : gmap string ITodo)
    (k : string) (n : nat) :
  tally key m !! k = Some n ↔ n ≠ 0%nat ∧ n = holders key k m.
Proof.
  rewrite tally_lookup. destruct (holders key k m) as [|h].
  - split; [done|]. by intros [? ->].
  - split; [by intros [= <-]|]. by intros [_ ->].
Qed.

(** C7: with the store reachable, the statistics give total = the number of
    records, completed = the number of records with completed = true,
    pending = the number of records with completed = false, whatever their
    status (a record with status IN_PROGRESS and completed false is among
    those counted as pending); byPriority and byStatus hold a value exactly
    when some record holds it, with the number of such records; on an empty
    store the result is total 0, completed 0, pending 0 and two empty
    mappings. *)
Theorem getTodoStats_counts (parse : string → option Z) (db : Db) :
  outage db = None →
  ∃ stats,
    getTodoStats parse db = (Return stats, db)
    ∧ total stats = size (docs db)
    ∧ stats_completed stats
      = size (filter (λ kv : string * ITodo, completed kv.2 = true) (docs db))
    ∧ pending stats
      = size (filter (λ kv : string * ITodo, completed kv.2 = false) (docs db))
    ∧ (∀ id d, docs db !! id = Some d →
         status d = IN_PROGRESS → completed d = false →
         filter (λ kv : string * ITodo, completed kv.2 = false) (docs db) !! id
         = Some d)
    ∧ (∀ k n, byPriority stats !! k = Some n ↔
         n ≠ 0%nat
         ∧ n = holders (λ d, TodoPriority_str (priority d)) k (docs db))
    ∧ (∀ k n, byStatus stats !! k = Some n ↔
         n ≠ 0%nat
         ∧ n = holders (λ d, TodoStatus_str (status d)) k (docs db))
    ∧ (docs db = ∅ → stats = mkStats 0 0 0 ∅ ∅).
Proof.
  intros Hout.
  destruct (cast_query_all parse) as (pa & Hpa & Hall).
  destruct (cast_query_completed parse true) as (pt & Hpt & Htrue).
  destruct (cast_query_completed parse false) as (pf & Hpf & Hfalse).
  eexists. split.
  - unfold getTodoStats, try_catch, bind.
    rewrite (Todo_countDocuments_run parse _ pa db Hout Hpa).
    rewrite (Todo_countDocuments_run parse _ pt db Hout Hpt).
    rewrite (Todo_countDocuments_run parse _ pf db Hout Hpf).
    rewrite (Todo_aggregate_group_run parse "$priority"
               (λ d, TodoPriority_str (priority d)) db Hout eq_refl).
    rewrite (Todo_aggregate_group_run parse "$status"
               (λ d, TodoStatus_str (status d)) db Hout eq_refl).
    unfold ret. rewrite !reduce_counts_map_to_list. reflexivity.
  - cbn [total stats_completed pending byPriority byStatus].
    rewrite (selected_all pa) by done.
    rewrite (selected_ext pt (λ d, completed d = true)) by done.
    rewrite (selected_ext pf (λ d, completed d = false)) by done.
    split; [reflexivity|]. split; [reflexivity|]. split; [reflexivity|].
    split; [|split; [|split]].
    + intros id d Hd _ Hc. apply map_lookup_filter_Some_2; [exact Hd|exact Hc].
    + intros k n. apply tally_sparse.
    + intros k n. apply tally_sparse.
    + intros ->. unfold tally.
      rewrite !map_filter_empty, map_size_empty, !map_fold_empty.
      reflexivity.
Qed.

(** ** Deleting the completed records *)

(** C8: with the store reachable, delete-all-completed removes exactly the
    records with completed = true, keeps every other record as it was, and
    returns the number of records removed; when no record has completed =
    true it returns 0, raises nothing, and leaves the store as it was. *)
Theorem deleteCompletedTodos_spec (parse : string → option Z) (db : Db) :
  outage db = None →
  let done := filter (λ kv : string * ITodo, completed kv.2 = true) (docs db) in
  ∃ db',
    deleteCompletedTodos parse db = (Return (size done), db')
    ∧ outage db' = outage db ∧ now db' = now db
    ∧ (∀ id, docs db' !! id
             = match docs db !! id with
               | Some d => if completed d then None else Some d
               | None => None
               end)
    ∧ size (docs db) = (size (docs db') + size done)%nat
    ∧ (done = ∅ → deleteCompletedTodos parse db = (Return 0%nat, db)).
Proof.
  intros Hout. cbv zeta.
  destruct (cast_query_completed parse true) as (pt & Hpt & Htrue).
  assert (Hrun : deleteCompletedTodos parse db
    = (Return (size (filter (λ kv : string * ITodo, completed kv.2 = true)
                       (docs db))),
       with_docs (filter (λ kv : string * ITodo, completed kv.2 ≠ true)
                    (docs db)) db)).
  { run. rewrite Hout, Hpt.
    rewrite (selected_ext pt (λ d, completed d = true)) by done.
    rewrite (selected_ext (λ d, negb (pt d)) (λ d, completed d ≠ true)).
    - by destruct (size _).
    - intros d. rewrite negb_true_iff, <- not_true_iff_false. by rewrite Htrue. }
  eexists. split; [exact Hrun|].
  split; [reflexivity|]. split; [reflexivity|]. split; [|split].
  - intros id. cbn [docs with_docs].
    destruct (docs db !! id) as [d|] eqn:Hd.
    + destruct (completed d) eqn:Hc.
      * apply map_lookup_filter_None_2. right. intros x Hx Hp.
        apply Hp. cbn. congruence.
      * apply map_lookup_filter_Some_2; [exact Hd|]. cbn. congruence.
    + apply map_lookup_filter_None_2. by left.
  - cbn [docs with_docs].
    rewrite <- (map_filter_union_complement
                  (λ kv : string * ITodo, completed kv.2 = true) (docs db))
      at 1.
    rewrite map_size_disj_union by apply map_disjoint_filter_complement.
    lia.
  - intros Hnone.
    assert (Hkeep : filter (λ kv : string * ITodo, completed kv.2 ≠ true)
                      (docs db) = docs db).
    { apply map_filter_id. intros i x Hx Hc.
      exact (map_filter_empty_not_lookup _ _ i x Hnone Hc Hx). }
    rewrite Hrun, Hnone, map_size_empty, Hkeep, with_docs_id. reflexivity.
Qed.


(** ** Instances *)

(** C4 as stated fails: the update of an id the store does not hold raises
    nothing; the service returns null. *)
Lemma updateTodo_missing_id_returns_null :
  docs (one_record rent) !! ObjectId_of other_id = None
  ∧ updateTodo no_parse other_id (only_completed true) (one_record rent)
    = (Return None, one_record rent)
  ∧ ¬ (∃ e, fst (updateTodo no_parse other_id (only_completed true)
                   (one_record rent)) = Throw e)
  ∧ fst (resolvers_Mutation_updateTodo no_parse other_id (only_completed true)
           (one_record rent))
    = Throw (ErrorObj "Error" "Failed to update todo: Todo not found").
Proof.
  split; [by vm_compute|]. split; [by vm_compute|]. split; [|by vm_compute].
  intros [e He]. vm_compute in He. discriminate He.
Qed.

(** The validators have nothing to refuse in [{ completed: b }]. *)
Lemma accepted_only_completed (b : bool) : accepted no_parse (only_completed b).
Proof. apply accepted_iff. repeat split; intros ? Heq; discriminate Heq. Defined.

(** An instance of the missing-id theorem: a store that holds another id. *)
Lemma updateTodo_missing_id_witness :
  updateTodo no_parse other_id (only_completed true) (one_record rent)
  = (Return None, one_record rent)
  ∧ resolvers_Mutation_updateTodo no_parse other_id (only_completed true)
      (one_record rent)
    = (Throw (ErrorObj "Error" "Failed to update todo: Todo not found"),
       one_record rent).
Proof.
  apply (updateTodo_missing_id no_parse other_id (only_completed true)
           (one_record rent)).
  - reflexivity.
  - vm_compute. reflexivity.
  - apply accepted_only_completed.
  - vm_compute. reflexivity.
Defined.

(** An instance of the coupling theorem: completed = true sent together with
    status = TODO, on a record in progress. *)
Lemma update_completed_forces_status_witness :
  ∃ d',
    fst (updateTodo no_parse sample_id completed_but_todo (one_record rent))
    = Return (Some d')
    ∧ docs (snd (updateTodo no_parse sample_id completed_but_todo
                   (one_record rent))) !! ObjectId_of sample_id = Some d'
    ∧ (u_completed completed_but_todo = Some true →
       status d' = COMPLETED ∧ completed d' = true)
    ∧ (u_completed completed_but_todo = None →
       u_status completed_but_todo = Some COMPLETED →
       status d' = COMPLETED ∧ completed d' = completed rent).
Proof.
  apply (update_completed_forces_status no_parse sample_id completed_but_todo
           (one_record rent) rent).
  - reflexivity.
  - vm_compute. reflexivity.
  - apply accepted_iff. repeat split; intros ? Heq; discriminate Heq.
  - vm_compute. reflexivity.
Defined.

(** An instance of the un-completing theorem: a completed record. *)
Lemma update_uncomplete_keeps_status_witness :
  ∃ d',
    fst (updateTodo no_parse sample_id (only_completed false)
           (one_record rent_done)) = Return (Some d')
    ∧ docs (snd (updateTodo no_parse sample_id (only_completed false)
                   (one_record rent_done))) !! ObjectId_of sample_id
      = Some d'
    ∧ status d' = status rent_done
    ∧ completed d' = false
    ∧ (status rent_done = COMPLETED →
       status d' = COMPLETED ∧ completed d' = false).
Proof.
  apply (update_uncomplete_keeps_status no_parse sample_id
           (only_completed false) (one_record rent_done) rent_done).
  - reflexivity.
  - vm_compute. reflexivity.
  - apply accepted_only_completed.
  - vm_compute. reflexivity.
  - reflexivity.
  - reflexivity.
Defined.

(** An instance of the statistics theorem: a store of one record. *)
Lemma getTodoStats_counts_witness :
  ∃ stats,
    getTodoStats no_parse (one_record rent) = (Return stats, one_record rent)
    ∧ total stats = size (docs (one_record rent))
    ∧ stats_completed stats
      = size (filter (λ kv : string * ITodo, completed kv.2 = true)
                (docs (one_record rent)))
    ∧ pending stats
      = size (filter (λ kv : string * ITodo, completed kv.2 = false)
                (docs (one_record rent)))
    ∧ (∀ id d, docs (one_record rent) !! id = Some d →
         status d = IN_PROGRESS → completed d = false →
         filter (λ kv : string * ITodo, completed kv.2 = false)
           (docs (one_record rent)) !! id = Some d)
    ∧ (∀ k n, byPriority stats !! k = Some n ↔
         n ≠ 0%nat
         ∧ n = holders (λ d, TodoPriority_str (priority d)) k
                 (docs (one_record rent)))
    ∧ (∀ k n, byStatus stats !! k = Some n ↔
         n ≠ 0%nat
         ∧ n = holders (λ d, TodoStatus_str (status d)) k
                 (docs (one_record rent)))
    ∧ (docs (one_record rent) = ∅ → stats = mkStats 0 0 0 ∅ ∅).
Proof.
  apply (getTodoStats_counts no_parse (one_record rent)). reflexivity.
Defined.

(** An instance of the bulk-delete theorem: a store of one pending record. *)
Lemma deleteCompletedTodos_spec_witness :
  let db := one_record rent in
  let done := filter (λ kv : string * ITodo, completed kv.2 = true) (docs db) in
  ∃ db',
    deleteCompletedTodos no_parse db = (Return (size done), db')
    ∧ outage db' = outage db ∧ now db' = now db
    ∧ (∀ id, docs db' !! id
             = match docs db !! id with
               | Some d => if completed d then None else Some d
               | None => None
               end)
    ∧ size (docs db) = (size (docs db') + size done)%nat
    ∧ (done = ∅ → deleteCompletedTodos no_parse db = (Return 0%nat, db)).
Proof.
  apply (deleteCompletedTodos_spec no_parse (one_record rent)). reflexivity.
Defined.

(** The statistics of a store that holds the one record [rent], and the
    deletion of the completed records on it, computed. *)
Example stats_one_record :
  getTodoStats no_parse (one_record rent)
  = (Return (mkStats 1 0 1 {[ "HIGH" := 1%nat ]} {[ "IN_PROGRESS" := 1%nat ]}),
     one_record rent).
Proof. vm_compute. reflexivity. Qed.

Example delete_none_completed :
  deleteCompletedTodos no_parse (one_record rent)
  = (Return 0%nat, one_record rent).
Proof. vm_compute. reflexivity. Qed.

Example delete_one_completed :
  deleteCompletedTodos no_parse
    (mkDb {[ sample_id := rent_done; other_id := rent ]} None 1)
  = (Return 1%nat, mkDb {[ other_id := rent ]} None 1).
Proof. vm_compute. reflexivity. Qed.

(** * Further properties *)

(** ** Creation *)

Lemma newTodoData_lookup (input : TodoInput) :
  newTodoData input !! "title" = Some (VStr (i_title input))
  ∧ newTodoData input !! "description" = VStr <$> i_description input
  ∧ newTodoData input !! "status" = Some (VStr (TodoStatus_str TODO))
  ∧ newTodoData input !! "priority"
    = Some (VStr (TodoPriority_str (default MEDIUM (i_priority input))))
  ∧ newTodoData input !! "dueDate" = VDate <$> i_dueDate input
  ∧ newTodoData input !! "tags" = Some (VList (default [] (i_tags input)))
  ∧ newTodoData input !! "completed" = Some (VBool false).
Proof.
  destruct input as [t [de|] [pr|] [du|] [tg|]];
    repeat split; try reflexivity;
    cbn [i_priority default]; unfold newTodoData; cbn [i_priority];
    rewrite truthy_priority; reflexivity.
Qed.

Lemma path_title_Return (t t' : string) :
  path_title (VStr t) = Return t' ↔
  t' = trim t ∧ trim t ≠ EmptyString ∧ (String.length (trim t) ≤ 200)%nat.
Proof.
  unfold path_title. destruct (trim t) as [|c r] eqn:Ht; cbn [truthy_str negb].
  - split; [done|]. by intros (_ & ? & _).
  - destruct (200 <? String.length (String c r))%nat eqn:Hlen.
    + apply Nat.ltb_lt in Hlen. split; [done|]. intros (_ & _ & ?). lia.
    + apply Nat.ltb_ge in Hlen. split.
      * by intros [= <-].
      * by intros (-> & _ & _).
Qed.

Lemma path_description_Return (t t' : string) :
  path_description (VStr t) = Return t' ↔
  t' = trim t ∧ (String.length (trim t) ≤ 1000)%nat.
Proof.
  unfold path_description.
  destruct (1000 <? String.length (trim t))%nat eqn:Hlen.
  - apply Nat.ltb_lt in Hlen. split; [done|]. intros (_ & ?). lia.
  - apply Nat.ltb_ge in Hlen. split.
    + by intros [= <-].
    + by intros (-> & _).
Qed.

Section Creation_properties.

Variable parse : string → option Z.

(** What [new Todo] makes of the object of [createTodo], path by path. *)
Lemma cast_new_newTodoData (input : TodoInput) :
  cast_new parse (newTodoData input) =
  (t ← path_title (VStr (i_title input));
   de ← on_path path_description (VStr <$> i_description input);
   du ← on_path (path_dueDate parse) (VDate <$> i_dueDate input);
   Return (λ t0,
     {| title := t;
        description := de;
        status := TODO;
        priority := default MEDIUM (i_priority input);
        dueDate := default None du;
        tags := default [] (i_tags input);
        completed := false;
        createdAt := t0;
        updatedAt := t0 |})).
Proof.
  unfold cast_new.
  destruct (newTodoData_lookup input) as (-> & -> & -> & -> & -> & -> & ->).
  change (Some (VStr (TodoStatus_str TODO)))
    with ((λ s, VStr (TodoStatus_str s)) <$> Some TODO).
  change (Some (VStr (TodoPriority_str (default MEDIUM (i_priority input)))))
    with ((λ p, VStr (TodoPriority_str p))
            <$> Some (default MEDIUM (i_priority input))).
  change (Some (VList (default [] (i_tags input))))
    with (VList <$> Some (default [] (i_tags input))).
  change (Some (VBool false)) with (VBool <$> Some false).
  rewrite on_path_status, on_path_priority, on_path_tags, on_path_completed.
  destruct (path_title (VStr (i_title input))); [|reflexivity]. cbn.
  destruct (on_path path_description (VStr <$> i_description input));
    [|reflexivity].
  cbn. by destruct (on_path (path_dueDate parse) (VDate <$> i_dueDate input)).
Qed.

(** Only the title, the description and the due date can make the store
    refuse a new document; when it takes it, the document is [created]. *)
Lemma creatable_iff (input : TodoInput) :
  creatable parse input ↔
  (trim (i_title input) ≠ EmptyString
   ∧ (String.length (trim (i_title input)) ≤ 200)%nat)
  ∧ (∀ de, i_description input = Some de →
       (String.length (trim de) ≤ 1000)%nat)
  ∧ (∀ du, i_dueDate input = Some du → ∃ v, castDate parse du = Return v).
Proof.
  unfold creatable. rewrite cast_new_newTodoData. split.
  - intros [mk H].
    destruct (path_title (VStr (i_title input))) as [t|] eqn:Ht; [|done].
    apply path_title_Return in Ht as (_ & Hne & Hlen). cbn in H.
    destruct (i_description input) as [de|]; cbn in H.
    + destruct (path_description (VStr de)) as [de'|] eqn:Hde; [|done].
      apply path_description_Return in Hde as (_ & Hdl). cbn in H.
      destruct (i_dueDate input) as [du|]; cbn in H.
      * destruct (castDate parse du) eqn:Hdu; [|done].
        repeat split; try done; intros ? [= <-]; eauto.
      * repeat split; try done; intros ? [= <-]; eauto.
    + destruct (i_dueDate input) as [du|]; cbn in H.
      * destruct (castDate parse du) eqn:Hdu; [|done].
        repeat split; try done; intros ? [= <-]; eauto.
      * repeat split; done.
  - intros ((Hne & Hlen) & Hde & Hdu).
    rewrite (proj2 (path_title_Return (i_title input) _)
               (conj eq_refl (conj Hne Hlen))). cbn.
    destruct (i_description input) as [de|]; cbn.
    + rewrite (proj2 (path_description_Return de _)
                 (conj eq_refl (Hde de eq_refl))). cbn.
      destruct (i_dueDate input) as [du|]; cbn; [|eauto].
      destruct (Hdu du eq_refl) as [? ->]. cbn. eauto.
    + destruct (i_dueDate input) as [du|]; cbn; [|eauto].
      destruct (Hdu du eq_refl) as [? ->]. cbn. eauto.
Qed.

Lemma cast_new_created (input : TodoInput) (mk : Z → ITodo) :
  cast_new parse (newTodoData input) = Return mk →
  ∀ t, mk t = created parse input t.
Proof.
  rewrite cast_new_newTodoData. intros H t.
  destruct (path_title (VStr (i_title input))) as [ti|] eqn:Ht; [|done].
  apply path_title_Return in Ht as (-> & _). cbn in H.
  unfold created.
  destruct (i_description input) as [de|]; cbn in H.
  - destruct (path_description (VStr de)) as [de'|] eqn:Hde; [|done].
    apply path_description_Return in Hde as (-> & _). cbn in H.
    destruct (i_dueDate input) as [du|]; cbn in H.
    + destruct (castDate parse du) eqn:Hdu; [|done].
      cbn in H. injection H as <-. cbn. unfold date_cast. by rewrite Hdu.
    + injection H as <-. reflexivity.
  - destruct (i_dueDate input) as [du|]; cbn in H.
    + destruct (castDate parse du) eqn:Hdu; [|done].
      cbn in H. injection H as <-. cbn. unfold date_cast. by rewrite Hdu.
    + injection H as <-. reflexivity.
Qed.

Lemma createTodo_run (oid : string) (input : TodoInput) (db : Db) :
  outage db = None → isObjectId oid = true →
  docs db !! ObjectId_of oid = None →
  creatable parse input →
  createTodo parse oid input db
  = (Return (created parse input (now db)),
     with_docs (<[ObjectId_of oid := created parse input (now db)]> (docs db))
       db).
Proof.
  intros Hout Hid Hfresh [mk Hmk]. run_more.
  rewrite Hmk, Hout, Hid. cbn. rewrite Hfresh.
  by rewrite (cast_new_created input mk Hmk).
Qed.

End Creation_properties.

(** X1: on a reachable store, with a fresh well-formed id and an input the
    validators accept, createTodo stores one new record under that id and
    returns it: title and description trimmed, status TODO, completed false,
    priority MEDIUM unless given, no tags unless given, no due date unless
    given and else the date its value is cast to (none for the empty
    string), both timestamps at the time of the write; the records already
    there are as they were and the store holds one record more. *)
Theorem createTodo_defaults (parse : string → option Z) (oid : string)
    (input : TodoInput) (db : Db) :
  outage db = None → isObjectId oid = true →
  docs db !! ObjectId_of oid = None →
  creatable parse input →
  ∃ d,
    fst (createTodo parse oid input db) = Return d
    ∧ docs (snd (createTodo parse oid input db)) !! ObjectId_of oid = Some d
    ∧ title d = trim (i_title input)
    ∧ description d = trim <$> i_description input
    ∧ status d = TODO ∧ completed d = false
    ∧ priority d = default MEDIUM (i_priority input)
    ∧ tags d = default [] (i_tags input)
    ∧ (i_dueDate input = None → dueDate d = None)
    ∧ (∀ x, i_dueDate input = Some x → castDate parse x = Return (dueDate d))
    ∧ (i_dueDate input = Some (DateStr EmptyString) → dueDate d = None)
    ∧ createdAt d = now db ∧ updatedAt d = now db
    ∧ (∀ j, j ≠ ObjectId_of oid →
         docs (snd (createTodo parse oid input db)) !! j = docs db !! j)
    ∧ size (docs (snd (createTodo parse oid input db))) = S (size (docs db)).
Proof.
  intros Hout Hid Hfresh Hok.
  rewrite (createTodo_run parse oid input db Hout Hid Hfresh Hok).
  exists (created parse input (now db)). cbn [fst snd docs with_docs].
  apply creatable_iff in Hok as (_ & _ & Hdue).
  split; [reflexivity|]. split; [by rewrite lookup_insert_eq|].
  do 6 (split; [reflexivity|]).
  split; [|split; [|split]].
  - intros Hx. cbn [created dueDate]. by rewrite Hx.
  - intros x Hx. cbn [created dueDate]. rewrite Hx. cbn. unfold date_cast.
    by destruct (Hdue x Hx) as [v ->].
  - intros Hx. cbn [created dueDate]. by rewrite Hx.
  - do 2 (split; [reflexivity|]). split.
    + intros j Hj. by rewrite lookup_insert_ne.
    + by rewrite map_size_insert_None.
Qed.

(** X2: a record that createTodo has just stored is what getTodoById
    returns for its id. *)
Theorem createTodo_then_getTodoById (parse : string → option Z) (oid : string)
    (input : TodoInput) (db : Db) :
  outage db = None → isObjectId oid = true →
  docs db !! ObjectId_of oid = None →
  creatable parse input →
  ∃ d,
    fst (createTodo parse oid input db) = Return d
    ∧ getTodoById oid (snd (createTodo parse oid input db))
      = (Return (Some d), snd (createTodo parse oid input db)).
Proof.
  intros Hout Hid Hfresh Hok.
  rewrite (createTodo_run parse oid input db Hout Hid Hfresh Hok).
  eexists. split; [reflexivity|]. cbn [fst snd]. run.
  cbn [outage with_docs]. rewrite Hout, Hid. cbn.
  by rewrite lookup_insert_eq.
Qed.

(** X3: deleting a record that createTodo has just stored answers true and
    gives back the store as it was before the creation. *)
Theorem createTodo_then_deleteTodo (parse : string → option Z) (oid : string)
    (input : TodoInput) (db : Db) :
  outage db = None → isObjectId oid = true →
  docs db !! ObjectId_of oid = None →
  creatable parse input →
  deleteTodo oid (snd (createTodo parse oid input db)) = (Return true, db).
Proof.
  intros Hout Hid Hfresh Hok.
  rewrite (createTodo_run parse oid input db Hout Hid Hfresh Hok).
  cbn [snd]. run. cbn [outage with_docs]. rewrite Hout, Hid. cbn.
  rewrite lookup_insert_eq. cbn. unfold with_docs. cbn.
  rewrite delete_insert_eq, delete_id by done. by destruct db.
Qed.

(** X4: a title that is empty once trimmed (a title of white space, the
    no-break space included), or longer than 200 characters once trimmed,
    is refused on every store: createTodo throws an Error whose message
    starts with "Failed to create todo: " and the store is as it was. *)
Theorem createTodo_refuses_title (parse : string → option Z) (oid : string)
    (input : TodoInput) (db : Db) :
  trim (i_title input) = EmptyString
  ∨ (200 < String.length (trim (i_title input)))%nat →
  ∃ m,
    createTodo parse oid input db
    = (Throw (ErrorObj "Error" ("Failed to create todo: " ++ m)), db).
Proof.
  intros Hbad. run_more. rewrite cast_new_newTodoData.
  destruct (path_title (VStr (i_title input))) as [t|e] eqn:Ht.
  - apply path_title_Return in Ht as (_ & Hne & Hlen).
    destruct Hbad as [Hbad|Hbad]; [done|lia].
  - cbn. by eexists.
Qed.

(** The no-break spaces around a title are trimmed, and the empty string
    sent as due date leaves the record without one; a title of 200
    characters after a no-break space passes the validators. *)
Example createTodo_trims_no_break_spaces :
  fst (createTodo no_parse other_id call_mum (one_record rent))
  = Return (mkTodo "call mum" None TODO MEDIUM None [] false 1 1).
Proof. by vm_compute. Qed.

Example title_of_200_after_no_break_space :
  let t := string_of_list_ascii (replicate 200 "x"%char) in
  path_title (VStr (nbsp ++ t)) = Return t.
Proof. by vm_compute. Qed.

(** X5: createTodo never changes or removes a record the store already
    holds, whatever the input and whether it succeeds or fails (an id that
    is already taken is refused, not overwritten). *)
Theorem createTodo_keeps_records (parse : string → option Z) (oid : string)
    (input : TodoInput) (db : Db) (j : string) (d : ITodo) :
  docs db !! j = Some d →
  docs (snd (createTodo parse oid input db)) !! j = Some d.
Proof.
  intros Hj. run_more.
  destruct (cast_new parse (newTodoData input)); [|done]. cbn.
  destruct (outage db); [done|].
  destruct (isObjectId oid); [|done]. cbn.
  destruct (docs db !! ObjectId_of oid) eqn:Hoid; [done|]. cbn.
  rewrite lookup_insert_ne; [done|]. intros <-. congruence.
Qed.

(** ** Deleting and reading by id *)

Lemma deleteTodo_run (id : string) (db : Db) :
  outage db = None → isObjectId id = true →
  deleteTodo id db
  = (Return (bool_decide (is_Some (docs db !! ObjectId_of id))),
     with_docs (delete (ObjectId_of id) (docs db)) db).
Proof.
  intros Hout Hid. run. rewrite Hout, Hid. cbn.
  destruct (docs db !! ObjectId_of id) as [d|] eqn:Hd; cbn.
  - reflexivity.
  - rewrite delete_id by done. by rewrite with_docs_id.
Qed.

Lemma getTodoById_run (id : string) (db : Db) :
  outage db = None → isObjectId id = true →
  getTodoById id db = (Return (docs db !! ObjectId_of id), db).
Proof. intros Hout Hid. run. by rewrite Hout, Hid. Qed.

(** X6: on a reachable store and for a well-formed id, deleteTodo answers
    true exactly when the store held the ObjectId the id spells (in either
    case of its digits) and false exactly when it did not; afterwards that
    ObjectId is gone: getTodoById returns null for the id and a second
    deleteTodo answers false and changes nothing. *)
Theorem deleteTodo_outcome (id : string) (db : Db) :
  outage db = None → isObjectId id = true →
  let r := deleteTodo id db in
  (fst r = Return true ↔ is_Some (docs db !! ObjectId_of id))
  ∧ (fst r = Return false ↔ docs db !! ObjectId_of id = None)
  ∧ docs (snd r) !! ObjectId_of id = None
  ∧ getTodoById id (snd r) = (Return None, snd r)
  ∧ deleteTodo id (snd r) = (Return false, snd r).
Proof.
  intros Hout Hid. cbv zeta. rewrite (deleteTodo_run id db Hout Hid).
  cbn [fst snd].
  assert (Hgone : docs (with_docs (delete (ObjectId_of id) (docs db)) db)
                   !! ObjectId_of id = None)
    by apply lookup_delete_eq.
  split; [|split; [|split; [|split]]].
  - destruct (docs db !! ObjectId_of id) as [d|]; cbn.
    + split; [by eexists|done].
    + split; [done|]. by intros [? ?].
  - destruct (docs db !! ObjectId_of id) as [d|]; cbn; by split.
  - exact Hgone.
  - rewrite getTodoById_run by done. by rewrite Hgone.
  - rewrite deleteTodo_run by done. rewrite Hgone. cbn.
    f_equal. unfold with_docs. cbn. by rewrite delete_delete_eq.
Qed.

Lemma getTodoStats_run (parse : string → option Z) (db : Db) :
  outage db = None →
  getTodoStats parse db
  = (Return
       {| total := size (docs db);
          stats_completed :=
            size (filter (λ kv : string * ITodo, completed kv.2 = true)
                    (docs db));
          pending :=
            size (filter (λ kv : string * ITodo, completed kv.2 = false)
                    (docs db));
          byPriority := tally (λ d, TodoPriority_str (priority d)) (docs db);
          byStatus := tally (λ d, TodoStatus_str (status d)) (docs db) |},
     db).
Proof.
  intros Hout.
  destruct (cast_query_all parse) as (pa & Hpa & Hall).
  destruct (cast_query_completed parse true) as (pt & Hpt & Htrue).
  destruct (cast_query_completed parse false) as (pf & Hpf & Hfalse).
  unfold getTodoStats, try_catch, bind.
  rewrite (Todo_countDocuments_run parse _ pa db Hout Hpa).
  rewrite (Todo_countDocuments_run parse _ pt db Hout Hpt).
  rewrite (Todo_countDocuments_run parse _ pf db Hout Hpf).
  rewrite (Todo_aggregate_group_run parse "$priority"
             (λ d, TodoPriority_str (priority d)) db Hout eq_refl).
  rewrite (Todo_aggregate_group_run parse "$status"
             (λ d, TodoStatus_str (status d)) db Hout eq_refl).
  unfold ret. rewrite !reduce_counts_map_to_list.
  rewrite (selected_all pa) by done.
  rewrite (selected_ext pt (λ d, completed d = true)) by done.
  rewrite (selected_ext pf (λ d, completed d = false)) by done.
  reflexivity.
Qed.

(** X7: the two reading operations of the service, getTodoById and
    getTodoStats, leave the store exactly as it was, on every store and
    every id, also when they fail. *)
Theorem reads_leave_store (parse : string → option Z) (id : string) (db : Db) :
  snd (getTodoById id db) = db ∧ snd (getTodoStats parse db) = db.
Proof.
  split.
  - run. destruct (outage db); [done|]. by destruct (isObjectId id).
  - destruct (outage db) as [msg|] eqn:Hout.
    + run. by rewrite Hout.
    + by rewrite getTodoStats_run.
Qed.

(** ** Updating *)

Section Update_properties.

Variable parse : string → option Z.

Lemma cast_update_updated (input : TodoUpdateInput) (change : ITodo → ITodo) :
  cast_update parse (updateData input) = Return change →
  ∀ d t, touch t (change d) = updated parse input t d.
Proof.
  rewrite cast_update_updateData. intros H d t. unfold updated, touch.
  destruct (u_title input) as [ti|]; cbn in H.
  - destruct (path_title (VStr ti)) as [ti'|] eqn:Hti; [|done].
    apply path_title_Return in Hti as (-> & _). cbn in H.
    destruct (u_description input) as [de|]; cbn in H.
    + destruct (path_description (VStr de)) as [de'|] eqn:Hde; [|done].
      apply path_description_Return in Hde as (-> & _). cbn in H.
      destruct (u_dueDate input) as [du|]; cbn in H.
      * destruct (castDate parse du) eqn:Hdu; [|done].
        cbn in H. injection H as <-. cbn. unfold date_cast. by rewrite Hdu.
      * by injection H as <-.
    + destruct (u_dueDate input) as [du|]; cbn in H.
      * destruct (castDate parse du) eqn:Hdu; [|done].
        cbn in H. injection H as <-. cbn. unfold date_cast. by rewrite Hdu.
      * by injection H as <-.
  - destruct (u_description input) as [de|]; cbn in H.
    + destruct (path_description (VStr de)) as [de'|] eqn:Hde; [|done].
      apply path_description_Return in Hde as (-> & _). cbn in H.
      destruct (u_dueDate input) as [du|]; cbn in H.
      * destruct (castDate parse du) eqn:Hdu; [|done].
        cbn in H. injection H as <-. cbn. unfold date_cast. by rewrite Hdu.
      * by injection H as <-.
    + destruct (u_dueDate input) as [du|]; cbn in H.
      * destruct (castDate parse du) eqn:Hdu; [|done].
        cbn in H. injection H as <-. cbn. unfold date_cast. by rewrite Hdu.
      * by injection H as <-.
Qed.

Lemma updateTodo_run (id : string) (input : TodoUpdateInput) (db : Db) :
  outage db = None → isObjectId id = true → accepted parse input →
  updateTodo parse id input db
  = match docs db !! ObjectId_of id with
    | Some d =>
        (Return (Some (updated parse input (now db) d)),
         with_docs
           (<[ObjectId_of id := updated parse input (now db) d]> (docs db)) db)
    | None => (Return None, db)
    end.
Proof.
  intros Hout Hid [change Hc].
  destruct (docs db !! ObjectId_of id) as [d|] eqn:Hd.
  - rewrite (updateTodo_existing parse id input db d change Hout Hid Hc Hd).
    by rewrite (cast_update_updated input change Hc).
  - exact (updateTodo_absent parse id input db change Hout Hid Hc Hd).
Qed.

(** X8: an update is partial.  On an existing record (store reachable, id
    well formed, input accepted) each of title, description, priority,
    dueDate and tags keeps its value when the input does not name it; when
    the input names it, title and description take the value of the input
    trimmed, priority and tags the value of the input, and dueDate the date
    the value is cast to, which is none for the empty string (it clears
    the due date); createdAt is kept and updatedAt is the time of the
    write. *)
Theorem updateTodo_partial (id : string) (input : TodoUpdateInput) (db : Db)
    (d : ITodo) :
  outage db = None → isObjectId id = true → accepted parse input →
  docs db !! ObjectId_of id = Some d →
  ∃ d',
    fst (updateTodo parse id input db) = Return (Some d')
    ∧ docs (snd (updateTodo parse id input db)) !! ObjectId_of id = Some d'
    ∧ (u_title input = None → title d' = title d)
    ∧ (∀ x, u_title input = Some x → title d' = trim x)
    ∧ (u_description input = None → description d' = description d)
    ∧ (∀ x, u_description input = Some x → description d' = Some (trim x))
    ∧ (u_priority input = None → priority d' = priority d)
    ∧ (∀ x, u_priority input = Some x → priority d' = x)
    ∧ (u_dueDate input = None → dueDate d' = dueDate d)
    ∧ (∀ x, u_dueDate input = Some x → castDate parse x = Return (dueDate d'))
    ∧ (u_dueDate input = Some (DateStr EmptyString) → dueDate d' = None)
    ∧ (u_tags input = None → tags d' = tags d)
    ∧ (∀ x, u_tags input = Some x → tags d' = x)
    ∧ createdAt d' = createdAt d
    ∧ updatedAt d' = now db.
Proof.
  intros Hout Hid Hok Hd. rewrite (updateTodo_run id input db Hout Hid Hok), Hd.
  eexists. split; [reflexivity|].
  split; [cbn; by rewrite lookup_insert_eq|]. cbn.
  apply accepted_iff in Hok as (_ & _ & Hdue).
  repeat match goal with |- _ ∧ _ => split end; try reflexivity;
    try (by intros ->); try (by intros x ->).
  intros x Hx. rewrite Hx. unfold date_cast.
  by destruct (Hdue x Hx) as [v ->].
Qed.

(** A due date sent as a string of digits is read as a number of
    milliseconds, and the empty string clears the due date. *)
Example updateTodo_reads_digits_as_milliseconds :
  fst (updateTodo no_parse sample_ID reschedule (one_record rent))
  = Return (Some (mkTodo "pay the rent" None IN_PROGRESS HIGH
                    (Some 1700000000000) [] false 0 1)).
Proof. by vm_compute. Qed.

Example updateTodo_empty_string_clears_dueDate :
  fst (updateTodo no_parse sample_id
         (mkUpdate None None None None (Some (DateStr EmptyString)) None None)
         (one_record rent_due))
  = Return (Some (mkTodo "pay rent" None IN_PROGRESS HIGH None [] false 0 1)).
Proof. by vm_compute. Qed.

(** X9: updateTodo is idempotent: sending the same accepted input a second
    time (same id, same clock) returns what the first call returned and
    leaves the store as the first call left it. *)
Theorem updateTodo_idempotent (id : string) (input : TodoUpdateInput) (db : Db) :
  outage db = None → isObjectId id = true → accepted parse input →
  let r := updateTodo parse id input db in
  updateTodo parse id input (snd r) = r.
Proof.
  intros Hout Hid Hok. cbv zeta.
  rewrite (updateTodo_run id input db Hout Hid Hok).
  destruct (docs db !! ObjectId_of id) as [d|] eqn:Hd; cbn [snd].
  - rewrite updateTodo_run by done. cbn [docs now with_docs].
    rewrite lookup_insert_eq.
    assert (Hsame : updated parse input (now db) (updated parse input (now db) d)
                    = updated parse input (now db) d).
    { unfold updated. cbn.
      by destruct (u_title input), (u_description input),
        (status_asked input), (u_priority input), (u_dueDate input),
        (u_tags input), (u_completed input). }
    rewrite Hsame. f_equal. unfold with_docs. cbn. by rewrite insert_insert_eq.
  - rewrite updateTodo_run by done. by rewrite Hd.
Qed.

(** X10: getTodoById after an accepted updateTodo returns exactly what the
    update returned (the new record, or null for an id the store does not
    hold). *)
Theorem updateTodo_then_getTodoById (id : string) (input : TodoUpdateInput)
    (db : Db) :
  outage db = None → isObjectId id = true → accepted parse input →
  let r := updateTodo parse id input db in
  getTodoById id (snd r) = r.
Proof.
  intros Hout Hid Hok. cbv zeta.
  rewrite (updateTodo_run id input db Hout Hid Hok).
  destruct (docs db !! ObjectId_of id) as [d|] eqn:Hd; cbn [snd].
  - rewrite getTodoById_run by done. cbn [docs with_docs].
    by rewrite lookup_insert_eq.
  - rewrite getTodoById_run by done. by rewrite Hd.
Qed.

(** X11: toggling a record that is not completed does exactly what
    updateTodo does with the input [{ completed: true }]: same result, same
    store. *)
Theorem toggle_pending_is_update (id : string) (db : Db) (d : ITodo) :
  outage db = None → isObjectId id = true →
  docs db !! ObjectId_of id = Some d →
  completed d = false →
  toggleTodoStatus id db = updateTodo parse id (only_completed true) db.
Proof.
  intros Hout Hid Hd Hc.
  rewrite (toggleTodoStatus_existing id db d Hout Hid Hd).
  rewrite (updateTodo_run id (only_completed true) db Hout Hid), Hd.
  - unfold toggled, updated. cbn. by rewrite Hc.
  - apply accepted_iff. repeat split; intros ? Heq; discriminate Heq.
Qed.

End Update_properties.

(** X12: updateTodo and toggleTodoStatus never add an id to the store and
    never remove one, whatever the id and the input and whether they
    succeed or fail; deleteTodo adds no id, and for a well-formed id it
    removes no id but the ObjectId the id spells. *)
Theorem ids_preserved (parse : string → option Z) (id : string)
    (input : TodoUpdateInput) (db : Db) :
  dom (docs (snd (updateTodo parse id input db))) = dom (docs db)
  ∧ dom (docs (snd (toggleTodoStatus id db))) = dom (docs db)
  ∧ dom (docs (snd (deleteTodo id db))) ⊆ dom (docs db)
  ∧ (isObjectId id = true →
     dom (docs db) ∖ {[ ObjectId_of id ]} ⊆ dom (docs (snd (deleteTodo id db)))).
Proof.
  assert (Hsub : dom (docs db) ∖ {[ ObjectId_of id ]} ⊆ dom (docs db))
    by by apply subseteq_difference_l.
  run.
  destruct (outage db) eqn:Hout; [done|].
  destruct (isObjectId id); [|done]. cbn.
  split; [|split; [|split]].
  - destruct (cast_update parse (updateData input)); [|done].
    destruct (docs db !! ObjectId_of id) eqn:Hd; [|done]. cbn.
    by rewrite dom_insert_lookup_L.
  - destruct (docs db !! ObjectId_of id) eqn:Hd; [|done]. cbn. rewrite Hout. cbn.
    by rewrite dom_insert_lookup_L.
  - destruct (docs db !! ObjectId_of id) eqn:Hd; [|done]. cbn.
    rewrite dom_delete_L. exact Hsub.
  - intros _. destruct (docs db !! ObjectId_of id) eqn:Hd; [|done]. cbn.
    by rewrite dom_delete_L.
Qed.

(** ** Statistics *)

Lemma sum_counts_insert (k : string) (v : nat) (r : gmap string nat) :
  sum_counts (<[k := v]> r) = (v + sum_counts r - default 0 (r !! k))%nat.
Proof.
  unfold sum_counts. destruct (r !! k) as [v0|] eqn:Hk;
    cbn [default from_option id].
  - rewrite <- insert_delete_eq.
    rewrite map_fold_insert_L; [|intros; lia|apply lookup_delete_eq].
    rewrite (map_fold_delete_L _ _ k v0 r); [cbn beta; lia|intros; lia|done].
  - rewrite map_fold_insert_L; [cbn beta; lia|intros; lia|done].
Qed.

Lemma sum_counts_ge (k : string) (v : nat) (r : gmap string nat) :
  r !! k = Some v → (v ≤ sum_counts r)%nat.
Proof.
  intros Hk. unfold sum_counts.
  rewrite (map_fold_delete_L _ _ k v r); [cbn beta; lia|intros; lia|done].
Qed.

Lemma sum_counts_tally (key : ITodo → string) (m : gmap string ITodo) :
  sum_counts (tally key m) = size m.
Proof.
  unfold tally.
  apply (map_fold_weak_ind (λ r m, sum_counts r = size m)).
  - by rewrite map_size_empty.
  - intros i x m' r Hi IH.
    rewrite sum_counts_insert, map_size_insert_None by done.
    destruct (r !! key x) as [v0|] eqn:Hk; cbn [default from_option id]; [|lia].
    apply sum_counts_ge in Hk. lia.
Qed.

Lemma size_filter_completed_split (m : gmap string ITodo) :
  size m
  = (size (filter (λ kv : string * ITodo, completed kv.2 = true) m)
     + size (filter (λ kv : string * ITodo, completed kv.2 = false) m))%nat.
Proof.
  rewrite <- (map_filter_union_complement
                (λ kv : string * ITodo, completed kv.2 = true) m) at 1.
  rewrite map_size_disj_union by apply map_disjoint_filter_complement.
  f_equal. f_equal. apply map_filter_ext. intros i x _. cbn.
  by destruct (completed x).
Qed.

(** X13: on a reachable store the statistics add up: total = completed +
    pending, and the counts of byStatus, like those of byPriority, sum to
    total. *)
Theorem getTodoStats_adds_up (parse : string → option Z) (db : Db) :
  outage db = None →
  ∃ stats,
    fst (getTodoStats parse db) = Return stats
    ∧ total stats = (stats_completed stats + pending stats)%nat
    ∧ sum_counts (byStatus stats) = total stats
    ∧ sum_counts (byPriority stats) = total stats.
Proof.
  intros Hout. rewrite getTodoStats_run by done. eexists.
  split; [reflexivity|]. cbn [total stats_completed pending byStatus byPriority].
  split; [apply size_filter_completed_split|].
  by rewrite !sum_counts_tally.
Qed.

Lemma tally_key (key : ITodo → string) (m : gmap string ITodo) (k : string)
    (n : nat) :
  tally key m !! k = Some n →
  (0 < n)%nat ∧ ∃ i d, m !! i = Some d ∧ key d = k.
Proof.
  intros H. apply tally_sparse in H as [Hn ->]. split; [lia|].
  unfold holders in Hn. apply map_size_ne_0_lookup in Hn as (i & d & Hd).
  apply map_lookup_filter_Some in Hd as [Hd Hk]. by exists i, d.
Qed.

(** X14: on a reachable store every key of byStatus is the name of one of
    the three statuses and every key of byPriority the name of one of the
    four priorities (the fields of the GraphQL types StatusStats and
    PriorityStats), and every count in them is positive. *)
Theorem getTodoStats_keys (parse : string → option Z) (db : Db) :
  outage db = None →
  ∃ stats,
    fst (getTodoStats parse db) = Return stats
    ∧ (∀ k n, byStatus stats !! k = Some n →
         (0 < n)%nat ∧ k ∈ ["TODO"; "IN_PROGRESS"; "COMPLETED"])
    ∧ (∀ k n, byPriority stats !! k = Some n →
         (0 < n)%nat ∧ k ∈ ["LOW"; "MEDIUM"; "HIGH"; "URGENT"]).
Proof.
  intros Hout. rewrite getTodoStats_run by done. eexists.
  split; [reflexivity|]. cbn [byStatus byPriority]. split.
  - intros k n H. apply tally_key in H as (Hn & i & d & _ & <-).
    split; [done|]. destruct (status d); cbn; set_solver.
  - intros k n H. apply tally_key in H as (Hn & i & d & _ & <-).
    split; [done|]. destruct (priority d); cbn; set_solver.
Qed.

Lemma deleteCompletedTodos_run (parse : string → option Z) (db : Db) :
  outage db = None →
  deleteCompletedTodos parse db
  = (Return (size (filter (λ kv : string * ITodo, completed kv.2 = true)
                     (docs db))),
     with_docs (filter (λ kv : string * ITodo, completed kv.2 = false)
                  (docs db)) db).
Proof.
  intros Hout.
  destruct (cast_query_completed parse true) as (pt & Hpt & Htrue).
  run. rewrite Hout, Hpt.
  rewrite (selected_ext pt (λ d, completed d = true)) by done.
  rewrite (selected_ext (λ d, negb (pt d)) (λ d, completed d = false)).
  - by destruct (size _).
  - intros d. rewrite negb_true_iff, <- not_true_iff_false, Htrue.
    apply not_true_iff_false.
Qed.

Lemma filter_completed_of_pending (m : gmap string ITodo) :
  filter (λ kv : string * ITodo, completed kv.2 = true)
    (filter (λ kv : string * ITodo, completed kv.2 = false) m) = ∅.
Proof.
  apply map_empty_filter. intros i x Hx Hc.
  apply map_lookup_filter_Some in Hx as [_ Hf]. cbn in Hc, Hf. congruence.
Qed.

Lemma filter_pending_of_pending (m : gmap string ITodo) :
  filter (λ kv : string * ITodo, completed kv.2 = false)
    (filter (λ kv : string * ITodo, completed kv.2 = false) m)
  = filter (λ kv : string * ITodo, completed kv.2 = false) m.
Proof.
  apply map_filter_id. intros i x Hx.
  by apply map_lookup_filter_Some in Hx as [_ Hf].
Qed.

(** X15: after deleteCompletedTodos (store reachable) the statistics show
    no completed record, the pending count they showed before, and a total
    equal to that pending count. *)
Theorem stats_after_deleteCompletedTodos (parse : string → option Z) (db : Db) :
  outage db = None →
  ∃ before after,
    fst (getTodoStats parse db) = Return before
    ∧ fst (getTodoStats parse (snd (deleteCompletedTodos parse db)))
      = Return after
    ∧ stats_completed after = 0%nat
    ∧ pending after = pending before
    ∧ total after = pending before.
Proof.
  intros Hout. rewrite (deleteCompletedTodos_run parse db Hout). cbn [snd].
  rewrite (getTodoStats_run parse db Hout).
  rewrite (getTodoStats_run parse (with_docs _ db) Hout). eexists _, _.
  split; [reflexivity|]. split; [reflexivity|].
  cbn [stats_completed pending total docs with_docs].
  rewrite filter_completed_of_pending, filter_pending_of_pending.
  by rewrite map_size_empty.
Qed.

(** X16: deleteCompletedTodos is idempotent: called again right after
    itself (store reachable) it deletes nothing, returns 0 and leaves the
    store as it is. *)
Theorem deleteCompletedTodos_idempotent (parse : string → option Z) (db : Db) :
  outage db = None →
  let db' := snd (deleteCompletedTodos parse db) in
  deleteCompletedTodos parse db' = (Return 0%nat, db').
Proof.
  intros Hout. cbv zeta. rewrite (deleteCompletedTodos_run parse db Hout).
  cbn [snd].
  rewrite (deleteCompletedTodos_run parse (with_docs _ db) Hout).
  cbn [docs with_docs].
  rewrite filter_completed_of_pending, filter_pending_of_pending.
  by rewrite map_size_empty.
Qed.

Lemma size_filter_replace (Q : ITodo → Prop) `{!∀ d, Decision (Q d)}
    (m : gmap string ITodo) (i : string) (x y : ITodo) :
  m !! i = Some x →
  (size (filter (λ kv : string * ITodo, Q kv.2) (<[i := y]> m))
   + (if decide (Q x) then 1 else 0)
   = size (filter (λ kv : string * ITodo, Q kv.2) m)
     + (if decide (Q y) then 1 else 0))%nat.
Proof.
  intros Hi. rewrite map_filter_insert. cbn [snd].
  assert (Hin : filter (λ kv : string * ITodo, Q kv.2) m !! i
                = if decide (Q x) then Some x else None).
  { destruct (decide (Q x)) as [Hq|Hq].
    - by apply map_lookup_filter_Some.
    - apply map_lookup_filter_None. right. intros x' Hx' HQ.
      assert (x' = x) as -> by congruence. exact (Hq HQ). }
  assert (Hpos : ∀ z, filter (λ kv : string * ITodo, Q kv.2) m !! i = Some z →
                 (0 < size (filter (λ kv : string * ITodo, Q kv.2) m))%nat).
  { intros z Hz. apply Nat.neq_0_lt_0. apply map_size_ne_0_lookup. eauto. }
  destruct (decide (Q y)).
  - rewrite map_size_insert, Hin. destruct (decide (Q x)); unfold id; lia.
  - rewrite map_filter_delete, map_size_delete.
    destruct (decide (Q x)) as [Hq|Hq]; rewrite Hin; unfold id.
    + specialize (Hpos x Hin). lia.
    + lia.
Qed.

(** X17: toggling an existing record moves exactly one record between the
    pending and the completed counts of the statistics and leaves the total
    unchanged: a pending record adds one to completed and takes one from
    pending, a completed record does the reverse. *)
Theorem stats_after_toggle (parse : string → option Z) (id : string) (db : Db)
    (d : ITodo) :
  outage db = None → isObjectId id = true →
  docs db !! ObjectId_of id = Some d →
  ∃ before after,
    fst (getTodoStats parse db) = Return before
    ∧ fst (getTodoStats parse (snd (toggleTodoStatus id db))) = Return after
    ∧ total after = total before
    ∧ (completed d = false →
       stats_completed after = S (stats_completed before)
       ∧ S (pending after) = pending before)
    ∧ (completed d = true →
       S (stats_completed after) = stats_completed before
       ∧ pending after = S (pending before)).
Proof.
  intros Hout Hid Hd.
  rewrite (toggleTodoStatus_existing id db d Hout Hid Hd). cbn [snd].
  rewrite (getTodoStats_run parse db Hout).
  rewrite (getTodoStats_run parse (with_docs _ db) Hout). eexists _, _.
  split; [reflexivity|]. split; [reflexivity|].
  cbn [stats_completed pending total docs with_docs].
  pose proof (size_filter_replace (λ x, completed x = true) (docs db) (ObjectId_of id) d
                (toggled (now db) d) Hd) as Ht.
  pose proof (size_filter_replace (λ x, completed x = false) (docs db) (ObjectId_of id) d
                (toggled (now db) d) Hd) as Hf.
  cbn [toggled completed] in Ht, Hf.
  split; [|split].
  - rewrite map_size_insert, Hd. done.
  - intros Hc. rewrite Hc in Ht, Hf. cbn in Ht, Hf.
    repeat case_decide; try done; lia.
  - intros Hc. rewrite Hc in Ht, Hf. cbn in Ht, Hf.
    repeat case_decide; try done; lia.
Qed.

Lemma size_filter_insert_fresh (Q : ITodo → Prop) `{!∀ d, Decision (Q d)}
    (m : gmap string ITodo) (i : string) (y : ITodo) :
  m !! i = None →
  size (filter (λ kv : string * ITodo, Q kv.2) (<[i := y]> m))
  = (size (filter (λ kv : string * ITodo, Q kv.2) m)
     + (if decide (Q y) then 1 else 0))%nat.
Proof.
  intros Hi. rewrite map_filter_insert. cbn [snd].
  destruct (decide (Q y)).
  - rewrite map_size_insert_None; [lia|].
    apply map_lookup_filter_None. by left.
  - rewrite delete_id by done. lia.
Qed.

(** X26: after createTodo has stored a record (store reachable, fresh
    well-formed id, accepted input) the statistics show one record more in
    total and one more pending, and the same number completed. *)
Theorem stats_after_createTodo (parse : string → option Z) (oid : string)
    (input : TodoInput) (db : Db) :
  outage db = None → isObjectId oid = true → docs db !! ObjectId_of oid = None →
  creatable parse input →
  ∃ before after,
    fst (getTodoStats parse db) = Return before
    ∧ fst (getTodoStats parse (snd (createTodo parse oid input db)))
      = Return after
    ∧ total after = S (total before)
    ∧ pending after = S (pending before)
    ∧ stats_completed after = stats_completed before.
Proof.
  intros Hout Hid Hfresh Hok.
  rewrite (createTodo_run parse oid input db Hout Hid Hfresh Hok). cbn [snd].
  rewrite (getTodoStats_run parse db Hout).
  rewrite (getTodoStats_run parse (with_docs _ db) Hout). eexists _, _.
  split; [reflexivity|]. split; [reflexivity|].
  cbn [stats_completed pending total docs with_docs].
  rewrite map_size_insert_None by done.
  pose proof (size_filter_insert_fresh (λ x, completed x = false) (docs db)
                (ObjectId_of oid) (created parse input (now db)) Hfresh) as Hp.
  pose proof (size_filter_insert_fresh (λ x, completed x = true) (docs db)
                (ObjectId_of oid) (created parse input (now db)) Hfresh) as Hc.
  cbn [created completed] in Hp, Hc.
  repeat case_decide; try done.
  repeat split; lia.
Qed.

(** X27: for a well-formed id whose ObjectId a reachable store does not
    hold (in either case of its digits), the service raises nothing:
    getTodoById and toggleTodoStatus return null, deleteTodo returns false,
    and the store is as it was. *)
Theorem service_missing_id (id : string) (db : Db) :
  outage db = None → isObjectId id = true →
  docs db !! ObjectId_of id = None →
  getTodoById id db = (Return None, db)
  ∧ toggleTodoStatus id db = (Return None, db)
  ∧ deleteTodo id db = (Return false, db).
Proof.
  intros Hout Hid Hnone. run. rewrite Hout, Hid. cbn. rewrite Hnone.
  repeat split; reflexivity.
Qed.

(** ** The virtual [isOverdue] *)

(** X18: a record that has just been completed is not overdue at any time,
    whether it was completed by updateTodo with completed = true (whatever
    due date the same input sets) or by toggling a pending record; and two
    toggles give back the overdue flag the record had, at every time. *)
Theorem isOverdue_and_completion (parse : string → option Z) (id : string)
    (db : Db) (d : ITodo) :
  outage db = None → isObjectId id = true →
  docs db !! ObjectId_of id = Some d →
  (∀ input, accepted parse input → u_completed input = Some true →
     ∃ d', fst (updateTodo parse id input db) = Return (Some d')
           ∧ ∀ t, isOverdue t d' = false)
  ∧ ∃ d1 d2,
      fst (toggleTodoStatus id db) = Return (Some d1)
      ∧ fst (toggleTodoStatus id (snd (toggleTodoStatus id db)))
        = Return (Some d2)
      ∧ (completed d = false → ∀ t, isOverdue t d1 = false)
      ∧ ∀ t, isOverdue t d2 = isOverdue t d.
Proof.
  intros Hout Hid Hd. split.
  - intros input Hok Hc. rewrite (updateTodo_run parse id input db Hout Hid Hok), Hd.
    eexists. split; [reflexivity|]. intros t. unfold isOverdue, updated.
    cbn. rewrite Hc. cbn. by destruct (u_dueDate input) as [du|];
      [destruct (date_cast parse du)|destruct (dueDate d)].
  - rewrite (toggleTodoStatus_existing id db d Hout Hid Hd). cbn [fst snd].
    rewrite (toggleTodoStatus_existing id _ (toggled (now db) d));
      [|done|done|cbn; by rewrite lookup_insert_eq].
    eexists _, _. split; [reflexivity|]. split; [reflexivity|]. split.
    + intros Hc t. unfold isOverdue, toggled. cbn. rewrite Hc. cbn.
      by destruct (dueDate d).
    + intros t. unfold isOverdue, toggled. cbn. by rewrite negb_involutive.
Qed.

(** ** Errors *)

Lemma rethrow_shape {A} (body : Async A) (what : string) (db : Db) (e : Thrown) :
  fst (try_catch body (rethrow what) db) = Throw e →
  ∃ m, e = ErrorObj "Error" (what ++ ": " ++ m).
Proof.
  unfold try_catch, rethrow, throw, new_Error.
  destruct (body db) as [[a|e'] db']; cbn; [done|].
  intros [= <-]. by eexists.
Qed.

Lemma service_error_shape (parse : string → option Z) (e : Thrown) :
  thrown_by_service parse e →
  ∃ what m, what ∈ service_prefixes ∧ e = ErrorObj "Error" (what ++ ": " ++ m).
Proof.
  unfold service_prefixes.
  intros (db & [(oid & input & H) | [(id & H) | [(id & input & H) |
            [(id & H) | [H | [(id & H) | H]]]]]]);
    apply rethrow_shape in H as [m ->]; eexists _, m;
    (split; [|reflexivity]); rewrite !elem_of_cons; tauto.
Qed.

Lemma rethrow_cause {A} (body : Async A) (what : string) (db : Db)
    (e : Thrown) :
  fst (try_catch body (rethrow what) db) = Throw e →
  ∃ cause, fst (body db) = Throw cause ∧ e = rewrapped what cause.
Proof.
  unfold try_catch, rethrow, throw, new_Error, rewrapped.
  destruct (body db) as [[a|e'] db']; cbn; [done|].
  intros [= <-]. by eexists.
Qed.

Lemma bind_ret_cause {A B} (m : Async A) (f : A → B) (db : Db) (c : Thrown) :
  fst ((await x := m in ret (f x)) db) = Throw c → fst (m db) = Throw c.
Proof.
  unfold bind, ret. destruct (m db) as [[a|e'] db']; cbn.
  - intros H. discriminate H.
  - intros [= ->]. reflexivity.
Qed.

(** X19: what a method of the service throws is a plain Error (its name is
    "Error", never ValidationError or CastError) whose message is the
    prefix of that very method, a colon, and the message of the cause (or
    "Unknown error" when the cause is no Error), the cause being what a
    call of the method on the collection threw. *)
Theorem service_errors_are_rewrapped (parse : string → option Z) (e : Thrown)
    (db : Db) :
  (∀ oid input, fst (createTodo parse oid input db) = Throw e →
     ∃ cause,
       fst (Todo_create parse oid (newTodoData input) db) = Throw cause
       ∧ e = ErrorObj "Error" ("Failed to create todo: " ++ message_of cause))
  ∧ (∀ id, fst (getTodoById id db) = Throw e →
       ∃ cause,
         fst (Todo_findById id db) = Throw cause
         ∧ e = ErrorObj "Error" ("Failed to fetch todo: " ++ message_of cause))
  ∧ (∀ id input, fst (updateTodo parse id input db) = Throw e →
       ∃ cause,
         fst (Todo_findByIdAndUpdate parse id (updateData input) db)
         = Throw cause
         ∧ e = ErrorObj "Error"
                 ("Failed to update todo: " ++ message_of cause))
  ∧ (∀ id, fst (deleteTodo id db) = Throw e →
       ∃ cause,
         fst (Todo_findByIdAndDelete id db) = Throw cause
         ∧ e = ErrorObj "Error"
                 ("Failed to delete todo: " ++ message_of cause))
  ∧ (fst (deleteCompletedTodos parse db) = Throw e →
       ∃ cause,
         fst (Todo_deleteMany parse
                {[ "completed" := Field (Eq (VBool true)) ]} db)
         = Throw cause
         ∧ e = ErrorObj "Error"
                 ("Failed to delete completed todos: " ++ message_of cause))
  ∧ (∀ id, fst (toggleTodoStatus id db) = Throw e →
       ∃ cause,
         (fst (Todo_findById id db) = Throw cause
          ∨ ∃ todo, fst (save (ObjectId_of id) todo db) = Throw cause)
         ∧ e = ErrorObj "Error"
                 ("Failed to toggle todo status: " ++ message_of cause))
  ∧ (fst (getTodoStats parse db) = Throw e →
       ∃ cause,
         (fst (Todo_countDocuments parse ∅ db) = Throw cause
          ∨ (∃ b, fst (Todo_countDocuments parse
                         {[ "completed" := Field (Eq (VBool b)) ]} db)
                  = Throw cause)
          ∨ ∃ path, fst (Todo_aggregate_group path db) = Throw cause)
         ∧ e = ErrorObj "Error"
                 ("Failed to fetch todo statistics: " ++ message_of cause)).
Proof.
  repeat match goal with |- _ ∧ _ => split end.
  - intros oid input H. apply rethrow_cause in H as (c & H & ->).
    apply (bind_ret_cause _ id) in H. by exists c.
  - intros i H. apply rethrow_cause in H as (c & H & ->).
    apply (bind_ret_cause _ id) in H. by exists c.
  - intros i input H. apply rethrow_cause in H as (c & H & ->).
    apply (bind_ret_cause _ id) in H. by exists c.
  - intros i H. apply rethrow_cause in H as (c & H & ->).
    apply bind_ret_cause in H. by exists c.
  - intros H. apply rethrow_cause in H as (c & H & ->).
    apply bind_ret_cause in H. by exists c.
  - intros i H. apply rethrow_cause in H as (c & H & ->).
    exists c. split; [|reflexivity]. left. revert H. run.
    destruct (outage db) eqn:Hout; [done|].
    destruct (isObjectId i); [|done]. cbn.
    destruct (docs db !! ObjectId_of i); [|done]. cbn. by rewrite Hout.
  - intros H. destruct (outage db) as [msg|] eqn:Hout.
    + apply rethrow_cause in H as (c & H & ->).
      exists c. split; [|reflexivity]. left. revert H. run.
      rewrite Hout. cbn. intros [= ->]. reflexivity.
    + by rewrite (getTodoStats_run parse db Hout) in H.
Qed.

(** X20: when the connection is down, each method of the service (given an
    id that is well formed and an input the validators accept) fails with
    its own prefix followed by the message of the driver, and the store is
    not touched. *)
Theorem service_when_store_is_down (parse : string → option Z) (msg : string)
    (db : Db) :
  outage db = Some msg →
  getTodoStats parse db = failed_with "Failed to fetch todo statistics" msg db
  ∧ deleteCompletedTodos parse db
    = failed_with "Failed to delete completed todos" msg db
  ∧ (∀ id, isObjectId id = true →
       getTodoById id db = failed_with "Failed to fetch todo" msg db
       ∧ deleteTodo id db = failed_with "Failed to delete todo" msg db
       ∧ toggleTodoStatus id db
         = failed_with "Failed to toggle todo status" msg db
       ∧ ∀ input, accepted parse input →
           updateTodo parse id input db
           = failed_with "Failed to update todo" msg db)
  ∧ (∀ oid input, isObjectId oid = true → creatable parse input →
       createTodo parse oid input db
       = failed_with "Failed to create todo" msg db).
Proof.
  intros Hout. unfold failed_with. run_more. rewrite Hout. cbn.
  split; [reflexivity|]. split; [reflexivity|]. split.
  - intros id Hid. repeat split; reflexivity.
  - intros oid input Hid [mk ->]. reflexivity.
Qed.

(** ** The resolvers *)

(** X21: for a well-formed id whose ObjectId a reachable store does not
    hold (in either case of its digits), the resolvers todo, deleteTodo and
    toggleTodoStatus throw a plain Error "<their prefix>: Todo not found"
    and leave the store as it was; for an id whose ObjectId the store
    holds, the resolver todo returns the record. *)
Theorem resolvers_missing_id (id : string) (db : Db) :
  outage db = None → isObjectId id = true →
  (docs db !! ObjectId_of id = None →
     resolvers_Query_todo id db
     = (Throw (ErrorObj "Error" "Failed to fetch todo: Todo not found"), db)
     ∧ resolvers_Mutation_deleteTodo id db
       = (Throw (ErrorObj "Error" "Failed to delete todo: Todo not found"), db)
     ∧ resolvers_Mutation_toggleTodoStatus id db
       = (Throw (ErrorObj "Error" "Failed to toggle todo status: Todo not found"),
          db))
  ∧ (∀ d, docs db !! ObjectId_of id = Some d →
       resolvers_Query_todo id db = (Return d, db)).
Proof.
  intros Hout Hid. split.
  - intros Hnone. run_more. rewrite Hout, Hid. cbn. rewrite Hnone.
    repeat split; reflexivity.
  - intros d Hd. run_more. rewrite Hout, Hid. cbn. by rewrite Hd.
Qed.

(** X22: a failure of the store reaches the caller of a resolver wrapped
    twice: with the connection down, each resolver throws a plain Error
    whose message is the prefix of the resolver, the prefix of the service
    method and then the message of the driver; the store is not touched. *)
Theorem resolvers_when_store_is_down (parse : string → option Z) (msg : string)
    (db : Db) :
  outage db = Some msg →
  resolvers_Query_todoStats parse db
  = failed_with "Failed to fetch statistics"
      ("Failed to fetch todo statistics: " ++ msg) db
  ∧ resolvers_Mutation_deleteCompletedTodos parse db
    = failed_with "Failed to delete completed todos"
        ("Failed to delete completed todos: " ++ msg) db
  ∧ (∀ id, isObjectId id = true →
       resolvers_Query_todo id db
       = failed_with "Failed to fetch todo" ("Failed to fetch todo: " ++ msg) db
       ∧ resolvers_Mutation_deleteTodo id db
         = failed_with "Failed to delete todo"
             ("Failed to delete todo: " ++ msg) db
       ∧ resolvers_Mutation_toggleTodoStatus id db
         = failed_with "Failed to toggle todo status"
             ("Failed to toggle todo status: " ++ msg) db
       ∧ ∀ input, accepted parse input →
           resolvers_Mutation_updateTodo parse id input db
           = failed_with "Failed to update todo"
               ("Failed to update todo: " ++ msg) db)
  ∧ (∀ oid input, isObjectId oid = true → creatable parse input →
       resolvers_Mutation_createTodo parse oid input db
       = failed_with "Failed to create todo"
           ("Failed to create todo: " ++ msg) db).
Proof.
  intros Hout. unfold failed_with. run_more. rewrite Hout. cbn.
  split; [reflexivity|]. split; [reflexivity|]. split.
  - intros id Hid. repeat split; reflexivity.
  - intros oid input Hid [mk ->]. reflexivity.
Qed.

(** ** The page information of [Query.todos] *)

Lemma Math_ceil_div_bounds (a b : Z) :
  1 ≤ b →
  (Math_ceil_div a b - 1) * b < a ≤ Math_ceil_div a b * b.
Proof.
  intros Hb. unfold Math_ceil_div.
  pose proof (Z.mul_div_le (- a) b ltac:(lia)).
  pose proof (Z.mul_succ_div_gt (- a) b ltac:(lia)).
  nia.
Qed.

(** X23: the resolver todos reports the page and the limit that the service
    used for the same pagination input; for a total that is not negative
    and a limit of at least 1, totalPages is the least number of pages of
    that size that hold total records (0 for total 0); with the limit
    absent or 0 the pages are counted by 10. *)
Theorem todos_info_totalPages (pagination : option PaginationInput) (total : Z) :
  0 ≤ total →
  let info := todos_info pagination total in
  tl_page info = page (paginate pagination)
  ∧ tl_limit info = limit (paginate pagination)
  ∧ tl_total info = total
  ∧ (1 ≤ tl_limit info →
     0 ≤ tl_totalPages info
     ∧ total ≤ tl_totalPages info * tl_limit info
     ∧ (∀ n, total ≤ n * tl_limit info → tl_totalPages info ≤ n)
     ∧ (total = 0 → tl_totalPages info = 0))
  ∧ (pagination ≫= p_limit = None ∨ pagination ≫= p_limit = Some 0 →
     tl_totalPages info = Math_ceil_div total 10).
Proof.
  intros Htot. cbv zeta. unfold todos_info, paginate.
  cbn [tl_page tl_limit tl_total tl_totalPages page limit].
  split; [reflexivity|]. split; [reflexivity|]. split; [reflexivity|]. split.
  - intros Hl.
    pose proof (Math_ceil_div_bounds total _ Hl) as [Hlo Hhi].
    repeat split; nia.
  - by intros [-> | ->].
Qed.

(** ** The error handler *)

(** X24: an error thrown by the service is answered 500 by errorHandler,
    whatever its cause (a refusal by the validators included, since the
    service has rewrapped it as a plain Error); in production the body is
    the fixed "Internal server error", elsewhere it carries the message;
    the message is logged with the path and the method of the request. *)
Theorem errorHandler_on_service_errors (parse : string → option Z) (e : Thrown)
    (NODE_ENV : option string) (req : Request) (stack : string) :
  thrown_by_service parse e →
  ∃ err,
    thrown_error e stack = Some err
    ∧ res_status (snd (errorHandler NODE_ENV err req)) = 500
    ∧ res_json (snd (errorHandler NODE_ENV err req)) !! "status" = Some "error"
    ∧ (NODE_ENV = Some "production" →
       res_json (snd (errorHandler NODE_ENV err req))
       = <["message" := "Internal server error"]> {[ "status" := "error" ]})
    ∧ (NODE_ENV ≠ Some "production" →
       res_json (snd (errorHandler NODE_ENV err req)) !! "message"
       = Some (message_of e))
    ∧ fst (errorHandler NODE_ENV err req)
      = mkLogMeta (message_of e) stack (req_path req) (req_method req).
Proof.
  intros H. apply service_error_shape in H as (what & m & _ & ->).
  eexists. split; [reflexivity|]. unfold errorHandler.
  cbn [err_app err_name err_message err_stack snd fst message_of].
  rewrite !bool_decide_eq_false_2 by done.
  cbn [res_status res_json].
  split; [reflexivity|]. split; [by rewrite lookup_insert_ne|]. split; [|split].
  - intros ->. by rewrite bool_decide_eq_true_2.
  - intros Hne. rewrite bool_decide_eq_false_2 by done.
    by rewrite lookup_insert_eq.
  - reflexivity.
Qed.

(** ** What the list filters select *)

Lemma forallb_cast {X} (cast : X → option (ITodo → bool)) (l : list X)
    (ps : list (ITodo → bool)) (d : ITodo) :
  Forall2 (λ x p, cast x = Some p) l ps →
  forallb (λ p : ITodo → bool, p d) ps = true ↔
  ∀ x, x ∈ l → ∃ p, cast x = Some p ∧ p d = true.
Proof.
  induction 1 as [|x p l ps Hx _ IH]; cbn.
  - split; [|done]. intros _ x Hin. by apply elem_of_nil in Hin.
  - rewrite andb_true_iff, IH. split.
    + intros [Hp Hl] y Hy. apply elem_of_cons in Hy as [->|Hy]; [eauto|].
      by apply Hl.
    + intros Hall. split.
      * destruct (Hall x) as (p' & Hp' & Hd); [by left|]. congruence.
      * intros y Hy. apply Hall. by right.
Qed.

Lemma cast_query_holds (parse : string → option Z) (q : Query)
    (p : ITodo → bool) (d : ITodo) :
  cast_query parse q = Some p →
  p d = true ↔
  ∀ k c, q !! k = Some c → ∃ pc, cast_clause parse k c = Some pc ∧ pc d = true.
Proof.
  unfold cast_query.
  destruct (mapM _ (map_to_list q)) as [ps|] eqn:Hps; [|done].
  cbn. intros [= <-]. apply mapM_Some in Hps.
  rewrite (forallb_cast _ _ _ d Hps). split.
  - intros H k c Hk. apply (H (k, c)). by apply elem_of_map_to_list.
  - intros H [k c] Hk. apply H. by apply elem_of_map_to_list.
Qed.

Lemma cast_query_accepts (parse : string → option Z) (q : Query) :
  (∀ k c, q !! k = Some c → is_Some (cast_clause parse k c)) →
  is_Some (cast_query parse q).
Proof.
  intros H. unfold cast_query.
  destruct (mapM _ (map_to_list q)) as [ps|] eqn:Hps; [by eexists|].
  apply mapM_None in Hps. apply Exists_exists in Hps as ([k c] & Hin & Hnone).
  apply elem_of_map_to_list in Hin. destruct (H k c Hin) as [pc Hpc].
  cbn in Hnone. congruence.
Qed.

Lemma buildQuery_lookups (f : TodoFilters) :
  let query := buildQuery (Some f) in
  query !! "status"
    = (λ s, Field (Eq (VStr (TodoStatus_str s)))) <$> f_status f
  ∧ query !! "completed" = (λ b, Field (Eq (VBool b))) <$> f_completed f
  ∧ query !! "priority"
    = (λ p, Field (Eq (VStr (TodoPriority_str p)))) <$> f_priority f
  ∧ query !! "tags"
    = match f_tags f with
      | Some (t :: ts) => Some (Field (In_ (t :: ts)))
      | _ => None
      end
  ∧ query !! "$or"
    = match f_search f with
      | Some (String c s) =>
          Some (Or [("title", Regex (String c s) "i");
                    ("description", Regex (String c s) "i")])
      | _ => None
      end
  ∧ query !! "dueDate"
    = built_range (date_clause (f_dueDateBefore f))
        (date_clause (f_dueDateAfter f))
  ∧ (∀ k, k ∉ filter_keys → query !! k = None).
Proof.
  cbv zeta. rewrite buildQuery_steps.
  repeat match goal with |- _ ∧ _ => split end.
  - rewrite !assign_if_ne by done. rewrite assign_if_eq, lookup_empty.
    by destruct (f_status f).
  - rewrite !assign_if_ne by done. rewrite assign_if_eq, assign_if_ne by done.
    rewrite lookup_empty. by destruct (f_completed f).
  - rewrite !assign_if_ne by done. rewrite assign_if_eq, !assign_if_ne by done.
    rewrite lookup_empty.
    destruct (f_priority f) as [p|]; [|done]. by rewrite truthy_priority.
  - rewrite !assign_if_ne by done. rewrite assign_if_eq, !assign_if_ne by done.
    rewrite lookup_empty. by destruct (f_tags f) as [[|t ts]|].
  - rewrite !assign_if_ne by done. rewrite assign_if_eq, !assign_if_ne by done.
    rewrite lookup_empty. by destruct (f_search f) as [[|c s]|].
  - match goal with
    | |- context [assign_if (f_dueDateBefore f) _ _ _ ?q] => set (q5 := q)
    end.
    assert (H5 : q5 !! "dueDate" = None).
    { subst q5. rewrite !assign_if_ne by done. apply lookup_empty. }
    rewrite assign_if_eq. unfold date_bound. rewrite !assign_if_eq, H5.
    unfold date_clause, built_range.
    destruct (f_dueDateAfter f) as [a|], (f_dueDateBefore f) as [b|];
      try destruct (truthy_date a); try destruct (truthy_date b); cbn;
      try reflexivity.
    all: by rewrite insert_empty.
  - intros k Hk.
    assert (Hne : ∀ k', k' ∈ filter_keys → k' ≠ k) by (by intros k' Hin ->).
    rewrite !assign_if_ne by (apply Hne; unfold filter_keys; set_solver).
    apply lookup_empty.
Qed.

Lemma TodoStatus_str_inj (s s' : TodoStatus) :
  TodoStatus_str s = TodoStatus_str s' → s = s'.
Proof. by destruct s, s'. Qed.

Lemma TodoPriority_str_inj (p p' : TodoPriority) :
  TodoPriority_str p = TodoPriority_str p' → p = p'.
Proof. by destruct p, p'. Qed.

Section Filter_properties.

Variable parse : string → option Z.
Variable f : TodoFilters.
Variable d : ITodo.

Lemma status_clause :
  clause_means parse (buildQuery (Some f)) d "status"
    (∀ s, f_status f = Some s → status d = s).
Proof.
  unfold clause_means.
  destruct (buildQuery_lookups f) as (-> & _).
  destruct (f_status f) as [s|]; cbn [fmap option_fmap option_map]; [|done].
  eexists. split; [reflexivity|]. cbn beta. rewrite bool_decide_eq_true.
  change (field_value "status" d) with (Some (VStr (TodoStatus_str (status d)))).
  split.
  - intros [= H] s' [= <-]. by apply TodoStatus_str_inj.
  - intros H. by rewrite (H s eq_refl).
Qed.

Lemma completed_clause :
  clause_means parse (buildQuery (Some f)) d "completed"
    (∀ b, f_completed f = Some b → completed d = b).
Proof.
  unfold clause_means.
  destruct (buildQuery_lookups f) as (_ & -> & _).
  destruct (f_completed f) as [b|]; cbn [fmap option_fmap option_map]; [|done].
  eexists. split; [reflexivity|]. cbn beta. rewrite bool_decide_eq_true.
  change (field_value "completed" d) with (Some (VBool (completed d))).
  split.
  - by intros [= H] b' [= <-].
  - intros H. by rewrite (H b eq_refl).
Qed.

Lemma priority_clause :
  clause_means parse (buildQuery (Some f)) d "priority"
    (∀ p, f_priority f = Some p → priority d = p).
Proof.
  unfold clause_means.
  destruct (buildQuery_lookups f) as (_ & _ & -> & _).
  destruct (f_priority f) as [p|]; cbn [fmap option_fmap option_map]; [|done].
  eexists. split; [reflexivity|]. cbn beta. rewrite bool_decide_eq_true.
  change (field_value "priority" d)
    with (Some (VStr (TodoPriority_str (priority d)))).
  split.
  - intros [= H] p' [= <-]. by apply TodoPriority_str_inj.
  - intros H. by rewrite (H p eq_refl).
Qed.

Lemma tags_clause :
  clause_means parse (buildQuery (Some f)) d "tags"
    (∀ ts, f_tags f = Some ts → ts ≠ [] → ∃ t, t ∈ tags d ∧ t ∈ ts).
Proof.
  unfold clause_means.
  destruct (buildQuery_lookups f) as (_ & _ & _ & -> & _).
  destruct (f_tags f) as [[|t0 ts]|]; [by intros ? [= <-]| |done].
  eexists. split; [reflexivity|]. cbn beta. rewrite existsb_exists. split.
  - intros (t & Hin & Ht) ts' [= <-] _. exists t.
    apply bool_decide_eq_true in Ht. by rewrite list_elem_of_In.
  - intros H. destruct (H _ eq_refl) as (t & Hin & Ht); [done|].
    exists t. rewrite <- list_elem_of_In. by rewrite bool_decide_eq_true.
Qed.

Lemma search_clause :
  (∀ s, f_search f = Some s → s ≠ EmptyString →
     is_Some (regex_compile s "i")) →
  clause_means parse (buildQuery (Some f)) d "$or"
    (∀ s re, f_search f = Some s → s ≠ EmptyString →
       regex_compile s "i" = Some re →
       regex_test re (title d) = true
       ∨ ∃ de, description d = Some de ∧ regex_test re de = true).
Proof.
  intros Hre. unfold clause_means.
  destruct (buildQuery_lookups f) as (_ & _ & _ & _ & -> & _).
  destruct (f_search f) as [[|c s]|]; [by intros ? ? [= <-]| |done].
  destruct (Hre _ eq_refl) as [re Hc]; [done|].
  exists (λ d, existsb (λ p : ITodo → bool, p d)
                 [λ d, match text_field "title" d with
                       | Some s0 => regex_test re s0
                       | None => false
                       end;
                  λ d, match text_field "description" d with
                       | Some s0 => regex_test re s0
                       | None => false
                       end]).
  split.
  - cbn [cast_clause]. rewrite bool_decide_eq_true_2 by done.
    cbn [andb mapM fst snd cast_cond].
    rewrite bool_decide_eq_false_2 by done. cbn [negb].
    rewrite (bool_decide_eq_true_2 ("title" ∈ _))
      by (rewrite !elem_of_cons; tauto).
    rewrite (bool_decide_eq_true_2 ("description" ∈ _))
      by (rewrite !elem_of_cons; tauto).
    rewrite Hc. reflexivity.
  - cbn [existsb].
    change (text_field "title" d) with (Some (title d)).
    change (text_field "description" d) with (description d).
    rewrite orb_false_r, orb_true_iff. split.
    + intros H s' re' [= <-] _ Hre'. rewrite Hc in Hre'. injection Hre' as <-.
      destruct H as [H|H]; [by left|]. right.
      destruct (description d) as [de|]; [|done]. by exists de.
    + intros H. destruct (H _ re eq_refl) as [Ht|(de & Hde & Ht)]; try done.
      * by left.
      * right. by rewrite Hde.
Qed.

Lemma dueDate_clause :
  (∀ x, date_clause (f_dueDateBefore f) = Some x → is_Some (time_of parse x)) →
  (∀ x, date_clause (f_dueDateAfter f) = Some x → is_Some (time_of parse x)) →
  clause_means parse (buildQuery (Some f)) d "dueDate"
    ((∀ x b, date_clause (f_dueDateBefore f) = Some x →
        time_of parse x = Some b → ∃ t, dueDate d = Some t ∧ t ≤ b)
     ∧ (∀ x a, date_clause (f_dueDateAfter f) = Some x →
          time_of parse x = Some a → ∃ t, dueDate d = Some t ∧ a ≤ t)).
Proof.
  intros Hb Ha. unfold clause_means.
  destruct (buildQuery_lookups f) as (_ & _ & _ & _ & _ & -> & _).
  destruct (date_clause (f_dueDateBefore f)) as [xb|],
    (date_clause (f_dueDateAfter f)) as [xa|]; cbn [built_range].
  - destruct (Hb xb eq_refl) as [tb Htb], (Ha xa eq_refl) as [ta Hta].
    eexists. split.
    + cbn [cast_clause cast_cond]. rewrite bool_decide_eq_true_2 by done.
      unfold cast_range.
      rewrite bool_decide_eq_true_2
        by (rewrite dom_insert_L, dom_singleton_L; set_solver).
      rewrite (lookup_insert_ne _ "$gte" "$lte") by done.
      rewrite lookup_singleton_eq, lookup_insert_eq.
      cbn. rewrite Htb, Hta. reflexivity.
    + cbn beta. destruct (dueDate d) as [t|].
      * rewrite andb_true_iff, Z.leb_le, Z.geb_le. split.
        -- intros [H1 H2]. split; intros ? ? [= <-] Ht; exists t;
             (split; [done|congruence || (by simplify_eq)]).
        -- intros [H1 H2].
           destruct (H1 _ _ eq_refl Htb) as (t1 & [= <-] & ?).
           destruct (H2 _ _ eq_refl Hta) as (t2 & [= <-] & ?). done.
      * split; [done|]. intros [H1 _].
        by destruct (H1 _ _ eq_refl Htb) as (? & [=] & _).
  - destruct (Hb xb eq_refl) as [tb Htb].
    eexists. split.
    + cbn [cast_clause cast_cond]. rewrite bool_decide_eq_true_2 by done.
      unfold cast_range.
      rewrite bool_decide_eq_true_2 by (rewrite dom_singleton_L; set_solver).
      rewrite lookup_singleton_eq. rewrite lookup_singleton_ne by done.
      cbn. rewrite Htb. reflexivity.
    + cbn beta. destruct (dueDate d) as [t|].
      * rewrite andb_true_r, Z.leb_le. split.
        -- intros H1. split; [|done]. intros ? ? [= <-] Ht. exists t.
           split; [done|]. by simplify_eq.
        -- intros [H1 _]. by destruct (H1 _ _ eq_refl Htb) as (t1 & [= <-] & ?).
      * split; [done|]. intros [H1 _].
        by destruct (H1 _ _ eq_refl Htb) as (? & [=] & _).
  - destruct (Ha xa eq_refl) as [ta Hta].
    eexists. split.
    + cbn [cast_clause cast_cond]. rewrite bool_decide_eq_true_2 by done.
      unfold cast_range.
      rewrite bool_decide_eq_true_2 by (rewrite dom_singleton_L; set_solver).
      rewrite lookup_singleton_eq. rewrite lookup_singleton_ne by done.
      cbn. rewrite Hta. reflexivity.
    + cbn beta. destruct (dueDate d) as [t|].
      * cbn [andb]. rewrite Z.geb_le. split.
        -- intros H1. split; [done|]. intros ? ? [= <-] Ht. exists t.
           split; [done|]. by simplify_eq.
        -- intros [_ H2]. by destruct (H2 _ _ eq_refl Hta) as (t1 & [= <-] & ?).
      * split; [done|]. intros [_ H2].
        by destruct (H2 _ _ eq_refl Hta) as (? & [=] & _).
  - done.
Qed.

End Filter_properties.

Lemma clause_means_holds (parse : string → option Z) (q : Query) (d : ITodo)
    (k : string) (C : Prop) :
  clause_means parse q d k C →
  (∀ c, q !! k = Some c →
     ∃ pc, cast_clause parse k c = Some pc ∧ pc d = true) → C.
Proof.
  unfold clause_means. intros Hm Hall. destruct (q !! k) as [c|]; [|done].
  destruct Hm as (pc & Hpc & Hiff). destruct (Hall c eq_refl) as (pc' & Hpc' & Hd).
  apply Hiff. congruence.
Qed.

Lemma clause_means_cast (parse : string → option Z) (q : Query) (d : ITodo)
    (k : string) (C : Prop) (c : Clause) :
  clause_means parse q d k C → q !! k = Some c →
  ∃ pc, cast_clause parse k c = Some pc ∧ (C → pc d = true).
Proof.
  unfold clause_means. intros Hm Hk. rewrite Hk in Hm.
  destruct Hm as (pc & Hpc & Hiff).
  exists pc. split; [done|]. apply Hiff.
Qed.

(** X25: the filters of the list operation are conjunctive.  When the store
    can evaluate the query (search string a regular expression of the
    model, date bounds that parse), it selects a record exactly when the
    record passes every filter that reached the query: status, completed
    and priority equal to the filter, at least one tag in common with a
    non-empty tag list, the search expression found in the title or in the
    description, a due date that is set and not after dueDateBefore, and
    set and not before dueDateAfter. *)
Theorem filters_select (parse : string → option Z) (f : TodoFilters) (d : ITodo) :
  well_posed parse f →
  ∃ b, matches parse (buildQuery (Some f)) d = Some b
       ∧ (b = true ↔ satisfies parse f d).
Proof.
  intros (Hre & Hb & Ha).
  pose proof (status_clause parse f d) as Mst.
  pose proof (completed_clause parse f d) as Mco.
  pose proof (priority_clause parse f d) as Mpr.
  pose proof (tags_clause parse f d) as Mtg.
  pose proof (search_clause parse f d Hre) as Mor.
  pose proof (dueDate_clause parse f d Hb Ha) as Mdu.
  destruct (buildQuery_lookups f) as (_ & _ & _ & _ & _ & _ & Hother).
  assert (Hkeys : ∀ k c, buildQuery (Some f) !! k = Some c →
            ∀ P : Prop,
              (k = "status" → P) → (k = "completed" → P) →
              (k = "priority" → P) → (k = "tags" → P) → (k = "$or" → P) →
              (k = "dueDate" → P) → P).
  { intros k c Hk P H1 H2 H3 H4 H5 H6.
    destruct (decide (k ∈ filter_keys)) as [Hin|Hout].
    - unfold filter_keys in Hin. rewrite !elem_of_cons in Hin.
      destruct Hin as [?|[?|[?|[?|[?|[?|Hnil]]]]]]; auto.
      by apply elem_of_nil in Hnil.
    - rewrite (Hother k Hout) in Hk. done. }
  destruct (cast_query_accepts parse (buildQuery (Some f))) as [p Hp].
  { intros k c Hk. apply (Hkeys k c Hk); intros ->.
    - destruct (clause_means_cast _ _ _ _ _ c Mst Hk) as (pc & -> & _); eauto.
    - destruct (clause_means_cast _ _ _ _ _ c Mco Hk) as (pc & -> & _); eauto.
    - destruct (clause_means_cast _ _ _ _ _ c Mpr Hk) as (pc & -> & _); eauto.
    - destruct (clause_means_cast _ _ _ _ _ c Mtg Hk) as (pc & -> & _); eauto.
    - destruct (clause_means_cast _ _ _ _ _ c Mor Hk) as (pc & -> & _); eauto.
    - destruct (clause_means_cast _ _ _ _ _ c Mdu Hk) as (pc & -> & _); eauto. }
  exists (p d). unfold matches. rewrite Hp. split; [reflexivity|].
  rewrite (cast_query_holds parse _ p d Hp). unfold satisfies. split.
  - intros Hall.
    pose proof (clause_means_holds _ _ _ _ _ Mst (Hall "status")).
    pose proof (clause_means_holds _ _ _ _ _ Mco (Hall "completed")).
    pose proof (clause_means_holds _ _ _ _ _ Mpr (Hall "priority")).
    pose proof (clause_means_holds _ _ _ _ _ Mtg (Hall "tags")).
    pose proof (clause_means_holds _ _ _ _ _ Mor (Hall "$or")).
    destruct (clause_means_holds _ _ _ _ _ Mdu (Hall "dueDate")).
    done.
  - intros (Cst & Cco & Cpr & Ctg & Cor & Cb & Ca) k c Hk.
    apply (Hkeys k c Hk); intros ->.
    + destruct (clause_means_cast _ _ _ _ _ c Mst Hk) as (pc & ? & ?); eauto.
    + destruct (clause_means_cast _ _ _ _ _ c Mco Hk) as (pc & ? & ?); eauto.
    + destruct (clause_means_cast _ _ _ _ _ c Mpr Hk) as (pc & ? & ?); eauto.
    + destruct (clause_means_cast _ _ _ _ _ c Mtg Hk) as (pc & ? & ?); eauto.
    + destruct (clause_means_cast _ _ _ _ _ c Mor Hk) as (pc & ? & ?); eauto.
    + destruct (clause_means_cast _ _ _ _ _ c Mdu Hk) as (pc & ? & ?); eauto.
Qed.

(** ** Instances of the further properties *)

(** An instance of X1: a second record in a store of one, its title between
    no-break spaces, its due date the empty string. *)
Lemma createTodo_defaults_witness :
  let parse := no_parse in
  let oid := other_id in
  let input := call_mum in
  let db := one_record rent in
  ∃ d,
    fst (createTodo parse oid input db) = Return d
    ∧ docs (snd (createTodo parse oid input db)) !! ObjectId_of oid = Some d
    ∧ title d = trim (i_title input)
    ∧ description d = trim <$> i_description input
    ∧ status d = TODO ∧ completed d = false
    ∧ priority d = default MEDIUM (i_priority input)
    ∧ tags d = default [] (i_tags input)
    ∧ (i_dueDate input = None → dueDate d = None)
    ∧ (∀ x, i_dueDate input = Some x → castDate parse x = Return (dueDate d))
    ∧ (i_dueDate input = Some (DateStr EmptyString) → dueDate d = None)
    ∧ createdAt d = now db ∧ updatedAt d = now db
    ∧ (∀ j, j ≠ ObjectId_of oid →
         docs (snd (createTodo parse oid input db)) !! j = docs db !! j)
    ∧ size (docs (snd (createTodo parse oid input db))) = S (size (docs db)).
Proof.
  cbv zeta.
  apply (createTodo_defaults no_parse other_id call_mum (one_record rent)).
  - reflexivity.
  - vm_compute. reflexivity.
  - vm_compute. reflexivity.
  - apply creatable_iff. split; [split; [by vm_compute|vm_compute; lia]|].
    split; intros ? Heq; [discriminate Heq|].
    injection Heq as <-. eexists. vm_compute. reflexivity.
Defined.

(** An instance of X2. *)
Lemma createTodo_then_getTodoById_witness :
  let parse := no_parse in
  let oid := other_id in
  let input := call_home in
  let db := one_record rent in
  ∃ d,
    fst (createTodo parse oid input db) = Return d
    ∧ getTodoById oid (snd (createTodo parse oid input db))
      = (Return (Some d), snd (createTodo parse oid input db)).
Proof.
  cbv zeta.
  apply (createTodo_then_getTodoById no_parse other_id call_home (one_record rent)).
  - reflexivity.
  - vm_compute. reflexivity.
  - vm_compute. reflexivity.
  - apply creatable_iff. split; [split; [by vm_compute|vm_compute; lia]|].
    split; intros ? Heq; discriminate Heq.
Defined.

(** An instance of X3. *)
Lemma createTodo_then_deleteTodo_witness :
  let parse := no_parse in
  let oid := other_id in
  let input := call_home in
  let db := one_record rent in
  deleteTodo oid (snd (createTodo parse oid input db)) = (Return true, db).
Proof.
  cbv zeta.
  apply (createTodo_then_deleteTodo no_parse other_id call_home (one_record rent)).
  - reflexivity.
  - vm_compute. reflexivity.
  - vm_compute. reflexivity.
  - apply creatable_iff. split; [split; [by vm_compute|vm_compute; lia]|].
    split; intros ? Heq; discriminate Heq.
Defined.

(** An instance of X4: a title of blanks and no-break spaces. *)
Lemma createTodo_refuses_title_witness :
  let parse := no_parse in
  let oid := other_id in
  let input := blank_title in
  let db := one_record rent in
  ∃ m,
    createTodo parse oid input db
    = (Throw (ErrorObj "Error" ("Failed to create todo: " ++ m)), db).
Proof.
  cbv zeta.
  apply (createTodo_refuses_title no_parse other_id blank_title (one_record rent)).
  - left. vm_compute. reflexivity.
Defined.

(** An instance of X5: the new id is already taken. *)
Lemma createTodo_keeps_records_witness :
  let parse := no_parse in
  let oid := sample_id in
  let input := call_home in
  let db := one_record rent in
  let j := sample_id in
  let d := rent in
  docs (snd (createTodo parse oid input db)) !! j = Some d.
Proof.
  cbv zeta.
  apply (createTodo_keeps_records no_parse sample_id call_home (one_record rent) sample_id rent).
  - vm_compute. reflexivity.
Defined.

(** An instance of X6: the id of the one record, spelled in upper case. *)
Lemma deleteTodo_outcome_witness :
  let id := sample_ID in
  let db := one_record rent in
  let r := deleteTodo id db in
  (fst r = Return true ↔ is_Some (docs db !! ObjectId_of id))
  ∧ (fst r = Return false ↔ docs db !! ObjectId_of id = None)
  ∧ docs (snd r) !! ObjectId_of id = None
  ∧ getTodoById id (snd r) = (Return None, snd r)
  ∧ deleteTodo id (snd r) = (Return false, snd r).
Proof.
  cbv zeta.
  apply (deleteTodo_outcome sample_ID (one_record rent)).
  - reflexivity.
  - vm_compute. reflexivity.
Defined.

(** An instance of X8: a new title and a due date sent as a string of
    digits, the id spelled in upper case. *)
Lemma updateTodo_partial_witness :
  let parse := no_parse in
  let id := sample_ID in
  let input := reschedule in
  let db := one_record rent in
  let d := rent in
  ∃ d',
    fst (updateTodo parse id input db) = Return (Some d')
    ∧ docs (snd (updateTodo parse id input db)) !! ObjectId_of id = Some d'
    ∧ (u_title input = None → title d' = title d)
    ∧ (∀ x, u_title input = Some x → title d' = trim x)
    ∧ (u_description input = None → description d' = description d)
    ∧ (∀ x, u_description input = Some x → description d' = Some (trim x))
    ∧ (u_priority input = None → priority d' = priority d)
    ∧ (∀ x, u_priority input = Some x → priority d' = x)
    ∧ (u_dueDate input = None → dueDate d' = dueDate d)
    ∧ (∀ x, u_dueDate input = Some x → castDate parse x = Return (dueDate d'))
    ∧ (u_dueDate input = Some (DateStr EmptyString) → dueDate d' = None)
    ∧ (u_tags input = None → tags d' = tags d)
    ∧ (∀ x, u_tags input = Some x → tags d' = x)
    ∧ createdAt d' = createdAt d
    ∧ updatedAt d' = now db.
Proof.
  cbv zeta.
  apply (updateTodo_partial no_parse sample_ID reschedule (one_record rent) rent).
  - reflexivity.
  - vm_compute. reflexivity.
  - apply accepted_iff. split; [|split]; intros ? Heq; try discriminate Heq;
      injection Heq as <-; eexists; vm_compute; reflexivity.
  - vm_compute. reflexivity.
Defined.

(** An instance of X9. *)
Lemma updateTodo_idempotent_witness :
  let parse := no_parse in
  let id := sample_id in
  let input := retitle in
  let db := one_record rent in
  let r := updateTodo parse id input db in
  updateTodo parse id input (snd r) = r.
Proof.
  cbv zeta.
  apply (updateTodo_idempotent no_parse sample_id retitle (one_record rent)).
  - reflexivity.
  - vm_compute. reflexivity.
  - apply accepted_iff. split; [|split]; intros ? Heq; try discriminate Heq.
    injection Heq as <-. eexists. vm_compute. reflexivity.
Defined.

(** An instance of X10. *)
Lemma updateTodo_then_getTodoById_witness :
  let parse := no_parse in
  let id := sample_id in
  let input := retitle in
  let db := one_record rent in
  let r := updateTodo parse id input db in
  getTodoById id (snd r) = r.
Proof.
  cbv zeta.
  apply (updateTodo_then_getTodoById no_parse sample_id retitle (one_record rent)).
  - reflexivity.
  - vm_compute. reflexivity.
  - apply accepted_iff. split; [|split]; intros ? Heq; try discriminate Heq.
    injection Heq as <-. eexists. vm_compute. reflexivity.
Defined.

(** An instance of X11. *)
Lemma toggle_pending_is_update_witness :
  let parse := no_parse in
  let id := sample_id in
  let db := one_record rent in
  let d := rent in
  toggleTodoStatus id db = updateTodo parse id (only_completed true) db.
Proof.
  cbv zeta.
  apply (toggle_pending_is_update no_parse sample_id (one_record rent) rent).
  - reflexivity.
  - vm_compute. reflexivity.
  - vm_compute. reflexivity.
  - reflexivity.
Defined.

(** An instance of X13. *)
Lemma getTodoStats_adds_up_witness :
  let parse := no_parse in
  let db := two_records in
  ∃ stats,
    fst (getTodoStats parse db) = Return stats
    ∧ total stats = (stats_completed stats + pending stats)%nat
    ∧ sum_counts (byStatus stats) = total stats
    ∧ sum_counts (byPriority stats) = total stats.
Proof.
  cbv zeta.
  apply (getTodoStats_adds_up no_parse two_records).
  - reflexivity.
Defined.

(** An instance of X14. *)
Lemma getTodoStats_keys_witness :
  let parse := no_parse in
  let db := two_records in
  ∃ stats,
    fst (getTodoStats parse db) = Return stats
    ∧ (∀ k n, byStatus stats !! k = Some n →
         (0 < n)%nat ∧ k ∈ ["TODO"; "IN_PROGRESS"; "COMPLETED"])
    ∧ (∀ k n, byPriority stats !! k = Some n →
         (0 < n)%nat ∧ k ∈ ["LOW"; "MEDIUM"; "HIGH"; "URGENT"]).
Proof.
  cbv zeta.
  apply (getTodoStats_keys no_parse two_records).
  - reflexivity.
Defined.

(** An instance of X15. *)
Lemma stats_after_deleteCompletedTodos_witness :
  let parse := no_parse in
  let db := two_records in
  ∃ before after,
    fst (getTodoStats parse db) = Return before
    ∧ fst (getTodoStats parse (snd (deleteCompletedTodos parse db)))
      = Return after
    ∧ stats_completed after = 0%nat
    ∧ pending after = pending before
    ∧ total after = pending before.
Proof.
  cbv zeta.
  apply (stats_after_deleteCompletedTodos no_parse two_records).
  - reflexivity.
Defined.

(** An instance of X16. *)
Lemma deleteCompletedTodos_idempotent_witness :
  let parse := no_parse in
  let db := two_records in
  let db' := snd (deleteCompletedTodos parse db) in
  deleteCompletedTodos parse db' = (Return 0%nat, db').
Proof.
  cbv zeta.
  apply (deleteCompletedTodos_idempotent no_parse two_records).
  - reflexivity.
Defined.

(** An instance of X17: the pending record of two. *)
Lemma stats_after_toggle_witness :
  let parse := no_parse in
  let id := other_id in
  let db := two_records in
  let d := rent in
  ∃ before after,
    fst (getTodoStats parse db) = Return before
    ∧ fst (getTodoStats parse (snd (toggleTodoStatus id db))) = Return after
    ∧ total after = total before
    ∧ (completed d = false →
       stats_completed after = S (stats_completed before)
       ∧ S (pending after) = pending before)
    ∧ (completed d = true →
       S (stats_completed after) = stats_completed before
       ∧ pending after = S (pending before)).
Proof.
  cbv zeta.
  apply (stats_after_toggle no_parse other_id two_records rent).
  - reflexivity.
  - vm_compute. reflexivity.
  - vm_compute. reflexivity.
Defined.

(** An instance of X18: a record whose due date is set. *)
Lemma isOverdue_and_completion_witness :
  let parse := no_parse in
  let id := sample_id in
  let db := one_record rent_due in
  let d := rent_due in
  (∀ input, accepted parse input → u_completed input = Some true →
     ∃ d', fst (updateTodo parse id input db) = Return (Some d')
           ∧ ∀ t, isOverdue t d' = false)
  ∧ ∃ d1 d2,
      fst (toggleTodoStatus id db) = Return (Some d1)
      ∧ fst (toggleTodoStatus id (snd (toggleTodoStatus id db)))
        = Return (Some d2)
      ∧ (completed d = false → ∀ t, isOverdue t d1 = false)
      ∧ ∀ t, isOverdue t d2 = isOverdue t d.
Proof.
  cbv zeta.
  apply (isOverdue_and_completion no_parse sample_id (one_record rent_due) rent_due).
  - reflexivity.
  - vm_compute. reflexivity.
  - vm_compute. reflexivity.
Defined.

(** An instance of X20. *)
Lemma service_when_store_is_down_witness :
  let parse := no_parse in
  let msg := "connection lost" in
  let db := down "connection lost" in
  getTodoStats parse db = failed_with "Failed to fetch todo statistics" msg db
  ∧ deleteCompletedTodos parse db
    = failed_with "Failed to delete completed todos" msg db
  ∧ (∀ id, isObjectId id = true →
       getTodoById id db = failed_with "Failed to fetch todo" msg db
       ∧ deleteTodo id db = failed_with "Failed to delete todo" msg db
       ∧ toggleTodoStatus id db
         = failed_with "Failed to toggle todo status" msg db
       ∧ ∀ input, accepted parse input →
           updateTodo parse id input db
           = failed_with "Failed to update todo" msg db)
  ∧ (∀ oid input, isObjectId oid = true → creatable parse input →
       createTodo parse oid input db
       = failed_with "Failed to create todo" msg db).
Proof.
  cbv zeta.
  apply (service_when_store_is_down no_parse ("connection lost") (down "connection lost")).
  - reflexivity.
Defined.

(** An instance of X21: an id the store does not hold. *)
Lemma resolvers_missing_id_witness :
  let id := other_ID in
  let db := one_record rent in
  (docs db !! ObjectId_of id = None →
     resolvers_Query_todo id db
     = (Throw (ErrorObj "Error" "Failed to fetch todo: Todo not found"), db)
     ∧ resolvers_Mutation_deleteTodo id db
       = (Throw (ErrorObj "Error" "Failed to delete todo: Todo not found"), db)
     ∧ resolvers_Mutation_toggleTodoStatus id db
       = (Throw (ErrorObj "Error" "Failed to toggle todo status: Todo not found"),
          db))
  ∧ (∀ d, docs db !! ObjectId_of id = Some d →
       resolvers_Query_todo id db = (Return d, db)).
Proof.
  cbv zeta.
  apply (resolvers_missing_id other_ID (one_record rent)).
  - reflexivity.
  - vm_compute. reflexivity.
Defined.

(** An instance of X22. *)
Lemma resolvers_when_store_is_down_witness :
  let parse := no_parse in
  let msg := "connection lost" in
  let db := down "connection lost" in
  resolvers_Query_todoStats parse db
  = failed_with "Failed to fetch statistics"
      ("Failed to fetch todo statistics: " ++ msg) db
  ∧ resolvers_Mutation_deleteCompletedTodos parse db
    = failed_with "Failed to delete completed todos"
        ("Failed to delete completed todos: " ++ msg) db
  ∧ (∀ id, isObjectId id = true →
       resolvers_Query_todo id db
       = failed_with "Failed to fetch todo" ("Failed to fetch todo: " ++ msg) db
       ∧ resolvers_Mutation_deleteTodo id db
         = failed_with "Failed to delete todo"
             ("Failed to delete todo: " ++ msg) db
       ∧ resolvers_Mutation_toggleTodoStatus id db
         = failed_with "Failed to toggle todo status"
             ("Failed to toggle todo status: " ++ msg) db
       ∧ ∀ input, accepted parse input →
           resolvers_Mutation_updateTodo parse id input db
           = failed_with "Failed to update todo"
               ("Failed to update todo: " ++ msg) db)
  ∧ (∀ oid input, isObjectId oid = true → creatable parse input →
       resolvers_Mutation_createTodo parse oid input db
       = failed_with "Failed to create todo"
           ("Failed to create todo: " ++ msg) db).
Proof.
  cbv zeta.
  apply (resolvers_when_store_is_down no_parse ("connection lost") (down "connection lost")).
  - reflexivity.
Defined.

(** An instance of X23: 23 records in pages of 10. *)
Lemma todos_info_totalPages_witness :
  let pagination := Some (mkPagination (Some 2) (Some 10) None None) in
  let total := 23 in
  let info := todos_info pagination total in
  tl_page info = page (paginate pagination)
  ∧ tl_limit info = limit (paginate pagination)
  ∧ tl_total info = total
  ∧ (1 ≤ tl_limit info →
     0 ≤ tl_totalPages info
     ∧ total ≤ tl_totalPages info * tl_limit info
     ∧ (∀ n, total ≤ n * tl_limit info → tl_totalPages info ≤ n)
     ∧ (total = 0 → tl_totalPages info = 0))
  ∧ (pagination ≫= p_limit = None ∨ pagination ≫= p_limit = Some 0 →
     tl_totalPages info = Math_ceil_div total 10).
Proof.
  cbv zeta.
  apply (todos_info_totalPages (Some (mkPagination (Some 2) (Some 10) None None)) 23).
  - lia.
Defined.

(** An instance of X24: a refusal by the validators, in production. *)
Lemma errorHandler_on_service_errors_witness :
  let parse := no_parse in
  let e := ErrorObj "Error" "Failed to create todo: Title is required" in
  let NODE_ENV := Some "production" in
  let req := mkRequest "/graphql" "POST" in
  let stack := "Error: Failed to create todo" in
  ∃ err,
    thrown_error e stack = Some err
    ∧ res_status (snd (errorHandler NODE_ENV err req)) = 500
    ∧ res_json (snd (errorHandler NODE_ENV err req)) !! "status" = Some "error"
    ∧ (NODE_ENV = Some "production" →
       res_json (snd (errorHandler NODE_ENV err req))
       = <["message" := "Internal server error"]> {[ "status" := "error" ]})
    ∧ (NODE_ENV ≠ Some "production" →
       res_json (snd (errorHandler NODE_ENV err req)) !! "message"
       = Some (message_of e))
    ∧ fst (errorHandler NODE_ENV err req)
      = mkLogMeta (message_of e) stack (req_path req) (req_method req).
Proof.
  cbv zeta.
  apply (errorHandler_on_service_errors no_parse (ErrorObj "Error" "Failed to create todo: Title is required") (Some "production") (mkRequest "/graphql" "POST") ("Error: Failed to create todo")).
  - exists (one_record rent). left. exists other_id, blank_title.
    vm_compute. reflexivity.
Defined.

(** An instance of X25: a status, a tag list and a search string. *)
Lemma filters_select_witness :
  let parse := no_parse in
  let f := rent_filters in
  let d := rent in
  ∃ b, matches parse (buildQuery (Some f)) d = Some b
       ∧ (b = true ↔ satisfies parse f d).
Proof.
  cbv zeta.
  apply (filters_select no_parse rent_filters rent).
  - split; [|split].
    + intros s Hs _. injection Hs as <-. eexists. vm_compute. reflexivity.
    + intros x Hx. discriminate Hx.
    + intros x Hx. discriminate Hx.
Defined.

(** An instance of X26. *)
Lemma stats_after_createTodo_witness :
  let parse := no_parse in
  let oid := other_id in
  let input := call_home in
  let db := one_record rent in
  ∃ before after,
    fst (getTodoStats parse db) = Return before
    ∧ fst (getTodoStats parse (snd (createTodo parse oid input db)))
      = Return after
    ∧ total after = S (total before)
    ∧ pending after = S (pending before)
    ∧ stats_completed after = stats_completed before.
Proof.
  cbv zeta.
  apply (stats_after_createTodo no_parse other_id call_home (one_record rent)).
  - reflexivity.
  - vm_compute. reflexivity.
  - vm_compute. reflexivity.
  - apply creatable_iff. split; [split; [by vm_compute|vm_compute; lia]|].
    split; intros ? Heq; discriminate Heq.
Defined.

(** An instance of X27: an id the store does not hold. *)
Lemma service_missing_id_witness :
  let id := other_ID in
  let db := one_record rent in
  getTodoById id db = (Return None, db)
  ∧ toggleTodoStatus id db = (Return None, db)
  ∧ deleteTodo id db = (Return false, db).
Proof.
  cbv zeta.
  apply (service_missing_id other_ID (one_record rent)).
  - reflexivity.
  - vm_compute. reflexivity.
  - vm_compute. reflexivity.
Defined.
